(** * cc::Memory -- the page-bucket allocator of src/Memory.cc

    A shallow embedding of [Memory::allocate] and [Memory::free] together
    with the small part of the operating system they talk to ([mmap] and
    [munmap]).  Addresses and sizes are [Z]; every C integer type has its
    wrap-around written out ([size_t], [uint32], [uint16]).  The allocator is
    stateful, so its two entry points are written in a small state/error
    monad over the process state: the table of mapped pages, the address the
    OS hands out next, the context's open bucket and the trace of lock
    operations and system calls. *)

From Stdlib Require Import ZArith Lia List Bool.
From stdpp Require Import base option list gmap.

Open Scope Z_scope.

(** ** Machine integers *)

Definition size_t (x : Z) : Z := x mod 2 ^ 64.
Definition uint32 (x : Z) : Z := x mod 2 ^ 32.
Definition uint16 (x : Z) : Z := x mod 2 ^ 16.

(** [MAP_FAILED] is [(void * ) -1]. *)
Definition MAP_FAILED : Z := 2 ^ 64 - 1.

(** ** Constants and macros of Memory.cc *)

Definition CC_MEM_PAGE_PREALLOC : Z := 16.
Definition CC_MEM_GRANULARITY : Z := 16.

(** [((x) / G + ((x) % G > 0)) * G], in [size_t] arithmetic. *)
Definition CC_MEM_ALIGN (x : Z) : Z :=
  size_t ((x / CC_MEM_GRANULARITY
           + (if 0 <? x mod CC_MEM_GRANULARITY then 1 else 0))
          * CC_MEM_GRANULARITY).

(** [sizeof(uint32_t)], the width of the page-count prefix. *)
Definition prefixWidth : Z := 4.

(** ** Data *)

(** The fields of [Memory::BucketHeader] behind its mutex. *)
Record BucketHeader : Type := mkHeader {
  preallocCount_ : Z;   (* uint16_t *)
  bytesDirty_ : Z;      (* uint16_t *)
  objectCount_ : Z;     (* uint16_t *)
  open_ : bool
}.

(** What the allocator has placed at the start of a mapped page: nothing
    (a direct page, a page of a preallocation run not yet used, or a tail
    page of a large region), a constructed bucket header, or the page count
    of a large region. *)
Inductive PageHead : Type :=
  | Raw
  | Header (h : BucketHeader)
  | Prefix (pageCount : Z).

(** Observable steps: lock operations on a bucket and the two system calls
    with their arguments and return value. *)
Inductive Event : Type :=
  | Acquire (bucket : Z)
  | Release (bucket : Z)
  | Mmap (len ret : Z)
  | Munmap (addr len ret : Z).

(** Process state.  [pages] maps the base address of every mapped page to
    its head; [brk] is the address the next successful [mmap] returns;
    [bucket_] is the calling context's [Memory::bucket_] (0 is the null
    pointer); [trace] lists the events so far, oldest first. *)
Record State : Type := mkState {
  pages : gmap Z PageHead;
  brk : Z;
  bucket_ : Z;
  trace : list Event
}.

(** A call returns normally, dies on SIGABRT raised by [CC_MEM_ASSERT], or
    touches memory that does not hold what the code expects there
    (undefined behaviour in C). *)
Inductive Outcome (A : Type) : Type :=
  | Done (a : A) (s : State)
  | Aborted (s : State)
  | Undefined.
Arguments Done {A} a s.
Arguments Aborted {A} s.
Arguments Undefined {A}.

Definition M (A : Type) : Type := State -> Outcome A.

Definition ret {A} (a : A) : M A := fun s => Done a s.

Definition bind {A B} (m : M A) (k : A -> M B) : M B :=
  fun s => match m s with
           | Done a s' => k a s'
           | Aborted s' => Aborted s'
           | Undefined => Undefined
           end.

Notation "x <- m ;; k" := (bind m (fun x => k))
  (at level 100, m at next level, right associativity).
Notation "m ;;; k" := (bind m (fun _ => k))
  (at level 100, right associativity).

Definition emit (e : Event) : M unit :=
  fun s => Done tt (mkState (pages s) (brk s) (bucket_ s) (trace s ++ [e])).

Definition get_bucket : M Z := fun s => Done (bucket_ s) s.

Definition set_bucket (b : Z) : M unit :=
  fun s => Done tt (mkState (pages s) (brk s) b (trace s)).

Definition set_pages (f : gmap Z PageHead -> gmap Z PageHead)
    (s : State) : State :=
  mkState (f (pages s)) (brk s) (bucket_ s) (trace s).

(** ** Typed access to the start of a page *)

Definition load_header (b : Z) : M BucketHeader :=
  fun s => match pages s !! b with
           | Some (Header h) => Done h s
           | _ => Undefined
           end.

Definition store_header (b : Z) (h : BucketHeader) : M unit :=
  fun s => match pages s !! b with
           | Some (Header _) => Done tt (set_pages (insert b (Header h)) s)
           | _ => Undefined
           end.

(** Placement [new(pageStart) BucketHeader] followed by the assignments to
    all four fields: the page must be mapped. *)
Definition construct_header (b : Z) (h : BucketHeader) : M unit :=
  fun s => match pages s !! b with
           | Some _ => Done tt (set_pages (insert b (Header h)) s)
           | None => Undefined
           end.

(** [bucket->~BucketHeader()]. *)
Definition destroy_header (b : Z) : M unit :=
  fun s => match pages s !! b with
           | Some (Header _) => Done tt (set_pages (insert b Raw) s)
           | _ => Undefined
           end.

Definition load_u32 (a : Z) : M Z :=
  fun s => match pages s !! a with
           | Some (Prefix n) => Done n s
           | _ => Undefined
           end.

Definition store_u32 (a n : Z) : M unit :=
  fun s => match pages s !! a with
           | Some _ => Done tt (set_pages (insert a (Prefix n)) s)
           | None => Undefined
           end.

(** [bucket->acquire()] and [bucket->release()]: lock and unlock the mutex
    that lives in the header at [b]. *)
Definition acquire (b : Z) : M unit :=
  fun s => match pages s !! b with
           | Some (Header _) => emit (Acquire b) s
           | _ => Undefined
           end.

Definition release (b : Z) : M unit :=
  fun s => match pages s !! b with
           | Some (Header _) => emit (Release b) s
           | _ => Undefined
           end.

(** Partial-correctness triples over [M]: if [m] returns normally from a
    state satisfying [P], the result and the final state satisfy [Q]. *)
Definition hoare {A} (P : State -> Prop) (m : M A) (Q : A -> State -> Prop)
    : Prop :=
  forall s a s', P s -> m s = Done a s' -> Q a s'.

Section Allocator.

(** The platform: the page size [sysconf(_SC_PAGE_SIZE)] cached in
    [Memory::pageSize_], [sizeof(BucketHeader)] (Memory.h and the size of
    [pthread_mutex_t] are not part of the source file), and whether the file
    is compiled without NDEBUG. *)
Variable pageSize : Z.
Variable sizeofBucketHeader : Z.
Variable debug : bool.

Definition headerWidth : Z := CC_MEM_ALIGN sizeofBucketHeader.

(** ** Page provider *)

Definition pageCountOf (len : Z) : Z := (len + pageSize - 1) / pageSize.

(** Base addresses of [n] consecutive pages from [addr]. *)
Definition page_range (addr n : Z) : list Z :=
  (fun i => addr + i * pageSize) <$> seqZ 0 n.

Definition map_pages (addr n : Z) (m : gmap Z PageHead) : gmap Z PageHead :=
  foldr (fun a => insert a Raw) m (page_range addr n).

Definition unmap_pages (addr n : Z) (m : gmap Z PageHead) : gmap Z PageHead :=
  foldr delete m (page_range addr n).

(** [mmap(0, len, ..., MAP_ANONYMOUS|MAP_PRIVATE, -1, 0)]: the OS picks the
    page-aligned address [brk] and never hands out an address twice; the call
    fails on a zero length (EINVAL) and when the address space is used up
    (ENOMEM). *)
Definition sys_mmap (len : Z) : M Z :=
  fun s =>
    let n := pageCountOf len in
    let r := if (len =? 0) || (MAP_FAILED <? brk s + n * pageSize)
             then MAP_FAILED else brk s in
    let s' := if r =? MAP_FAILED then s
              else mkState (map_pages (brk s) n (pages s))
                           (brk s + n * pageSize) (bucket_ s) (trace s) in
    (emit (Mmap len r) ;;; ret r) s'.

(** [munmap(addr, len)]: EINVAL (-1) for an address that is not page-aligned
    or a zero length; otherwise every page in the range is removed (pages of
    the range that are not mapped are not an error) and the call returns 0. *)
Definition sys_munmap (addr len : Z) : M Z :=
  fun s =>
    if (negb (addr mod pageSize =? 0)) || (len =? 0)
    then (emit (Munmap addr len (-1)) ;;; ret (-1)) s
    else (emit (Munmap addr len 0) ;;; ret 0)
           (set_pages (unmap_pages addr (pageCountOf len)) s).

(** [CC_MEM_ASSERT(x)]: unblock and raise SIGABRT when [x] is false; compiled
    to nothing under NDEBUG. *)
Definition CC_MEM_ASSERT (x : bool) : M unit :=
  fun s => if debug && negb x then Aborted s else Done tt s.

(** ** Memory::allocate *)

(** The block guarded by [if (bucket)]: either the object fits and the
    function returns its address ([inl]), or the bucket is closed (and
    unmapped when it holds no live object) and its [preallocCount_] is handed
    on ([inr]). *)
Definition allocate_in_bucket (bucket size : Z) : M (Z + Z) :=
  acquire bucket ;;;
  h <- load_header bucket ;;
  if size <=? size_t (pageSize - bytesDirty_ h) then
    let data := size_t (bucket + bytesDirty_ h) in
    store_header bucket
      (mkHeader (preallocCount_ h) (uint16 (bytesDirty_ h + size))
                (uint16 (objectCount_ h + 1)) (open_ h)) ;;;
    release bucket ;;;
    ret (inl data)
  else
    store_header bucket
      (mkHeader (preallocCount_ h) (bytesDirty_ h) (objectCount_ h) false) ;;;
    let dispose := objectCount_ h =? 0 in
    let preallocCount := preallocCount_ h in
    release bucket ;;;
    (if dispose then
       destroy_header bucket ;;;
       r <- sys_munmap bucket pageSize ;;
       CC_MEM_ASSERT (r =? 0)
     else ret tt) ;;;
    ret (inr preallocCount).

(** The rest of the small-object branch: take the next page of the
    preallocation run or map a fresh run, and set up the new bucket.  The
    second assertion of the source, [(char * )bucket == (char * )pageStart],
    compares the result of placement [new] with its argument and cannot
    fail. *)
Definition allocate_new_bucket (bucket preallocCount size : Z) : M Z :=
  pageStart <-
    (if 0 <? preallocCount then ret (size_t (bucket + pageSize))
     else sys_mmap (size_t (pageSize * CC_MEM_PAGE_PREALLOC))) ;;
  CC_MEM_ASSERT (negb (pageStart =? MAP_FAILED)) ;;;
  construct_header pageStart
    (mkHeader
       (uint16 (if 0 <? preallocCount then preallocCount - 1
                else CC_MEM_PAGE_PREALLOC - 1))
       (uint16 (headerWidth + size))
       1
       true) ;;;
  set_bucket pageStart ;;;
  ret (size_t (pageStart + headerWidth)).

Definition allocate (size : Z) : M Z :=
  bucket <- get_bucket ;;
  let size := CC_MEM_ALIGN size in
  if size <=? size_t (pageSize - headerWidth) then
    r <- (if negb (bucket =? 0) then allocate_in_bucket bucket size
          else ret (inr 0)) ;;
    match r with
    | inl data => ret data
    | inr preallocCount => allocate_new_bucket bucket preallocCount size
    end
  else if size <=? pageSize then
    pageStart <- sys_mmap pageSize ;;
    CC_MEM_ASSERT (negb (pageStart =? MAP_FAILED)) ;;;
    ret pageStart
  else
    let size := size_t (size + prefixWidth) in
    let pageCount :=
      uint32 (size / pageSize + (if 0 <? size mod pageSize then 1 else 0)) in
    pageStart <- sys_mmap (size_t (pageCount * pageSize)) ;;
    CC_MEM_ASSERT (negb (pageStart =? MAP_FAILED)) ;;;
    store_u32 pageStart pageCount ;;;
    ret (size_t (pageStart + prefixWidth)).

(** ** Memory::free

    [instance()] returns the address of a thread-local object, so the early
    return on a null allocator is never taken. *)
Definition free (data : Z) : M unit :=
  let offset := uint32 (data mod pageSize) in
  if prefixWidth <? offset then
    let bucket := size_t (data - offset) in
    acquire bucket ;;;
    h <- load_header bucket ;;
    let count := uint16 (objectCount_ h - 1) in
    store_header bucket
      (mkHeader (preallocCount_ h) (bytesDirty_ h) count (open_ h)) ;;;
    let dispose := (count =? 0) && negb (open_ h) in
    release bucket ;;;
    if dispose then
      destroy_header bucket ;;;
      r <- sys_munmap (size_t (data - offset)) pageSize ;;
      CC_MEM_ASSERT (r =? 0)
    else ret tt
  else if offset =? 0 then
    r <- sys_munmap data pageSize ;;
    CC_MEM_ASSERT (r =? 0)
  else if offset =? prefixWidth then
    let pageStart := size_t (data - prefixWidth) in
    pageCount <- load_u32 pageStart ;;
    r <- sys_munmap pageStart (size_t (pageCount * pageSize)) ;;
    CC_MEM_ASSERT (r =? 0)
  else ret tt.

(** ** Structural well-formedness of a state

    Facts every state built by the two entry points enjoys, whatever the
    arguments: mapped pages are page-aligned and lie below [brk], bucket
    headers keep [bytesDirty_] between the header width and the page size on
    a multiple of the granularity, and the open-bucket pointer is null or a
    page address the OS has handed out. *)

Definition header_wf (h : BucketHeader) : Prop :=
  headerWidth <= bytesDirty_ h <= pageSize
  /\ bytesDirty_ h mod CC_MEM_GRANULARITY = 0
  /\ 0 <= objectCount_ h < 2 ^ 16
  /\ 0 <= preallocCount_ h < 2 ^ 16.

Definition page_addr (brk0 a : Z) : Prop :=
  0 < a /\ a mod pageSize = 0 /\ a + pageSize <= brk0.

Definition pages_wf (b0 : Z) (m : gmap Z PageHead) : Prop :=
  (forall a x, m !! a = Some x -> page_addr b0 a)
  /\ (forall a h, m !! a = Some (Header h) -> header_wf h).

Record state_wf (s : State) : Prop := mkWf {
  wf_brk : 0 < brk s /\ brk s mod pageSize = 0 /\ brk s <= MAP_FAILED;
  wf_pages : pages_wf (brk s) (pages s);
  wf_bucket : bucket_ s = 0 \/ page_addr (brk s) (bucket_ s)
}.

(** The state of a process that has not called the allocator yet: nothing
    mapped, no open bucket; the OS hands out addresses from the second page
    on (address 0 is never returned by [mmap]). *)
Definition init : State := mkState ∅ pageSize 0 [].

(** Number of pages currently mapped. *)
Definition mappedPages (s : State) : nat := size (dom (pages s)).

(** The events a call appended to the trace. *)
Definition events_since (s s' : State) : list Event :=
  drop (length (trace s)) (trace s').

Definition is_syscall (e : Event) : bool :=
  match e with
  | Mmap _ _ | Munmap _ _ _ => true
  | _ => false
  end.

(** The page table and the events after a full bucket has been closed. *)
Definition closed_pages (b : Z) (h : BucketHeader) (m : gmap Z PageHead)
    : gmap Z PageHead :=
  if objectCount_ h =? 0 then delete b m
  else <[b := Header (mkHeader (preallocCount_ h) (bytesDirty_ h)
                        (objectCount_ h) false)]> m.

Definition close_events (b : Z) (h : BucketHeader) : list Event :=
  [Acquire b; Release b]
  ++ (if objectCount_ h =? 0 then [Munmap b pageSize 0] else []).

(** Where a small object may start inside its page: behind the header, on a
    multiple of the granularity, with room for at least one granule. *)
Definition small_offset (p : Z) : Prop :=
  headerWidth <= p mod pageSize <= pageSize - CC_MEM_GRANULARITY
  /\ (p mod pageSize) mod CC_MEM_GRANULARITY = 0.

(** ** Bucket life cycle

    A mapped bucket is alive: it is open or it holds a live object.  Headers
    only exist at or below the context's bucket, whose header is open. *)

Definition bucket_alive (h : BucketHeader) : Prop :=
  open_ h = false -> objectCount_ h <> 0.

Record life_inv (s : State) : Prop := mkLife {
  li_alive : forall a h, pages s !! a = Some (Header h) -> bucket_alive h;
  li_below : forall a h, pages s !! a = Some (Header h) -> a <= bucket_ s;
  li_open : forall h, pages s !! bucket_ s = Some (Header h) -> open_ h = true
}.

(** Between two states, no bucket that is mapped in both has lost dirty
    bytes. *)
Definition bytesDirty_mono (s0 s : State) : Prop :=
  forall a h0 h,
    pages s0 !! a = Some (Header h0) -> pages s !! a = Some (Header h) ->
    bytesDirty_ h0 <= bytesDirty_ h.

(** How the headers of [s'] arise from those of [s] over one call: a header
    is inherited from the same page (no dirty bytes lost, still alive, the
    context's bucket open), or it is the header of a new bucket, built above
    every header of [s] and made the context's bucket. *)
Definition headers_from (s s' : State) : Prop :=
  bucket_ s <= bucket_ s'
  /\ forall a h',
       pages s' !! a = Some (Header h') ->
       (exists h,
          pages s !! a = Some (Header h)
          /\ bytesDirty_ h <= bytesDirty_ h'
          /\ bucket_alive h'
          /\ a <= bucket_ s'
          /\ (a = bucket_ s' -> open_ h' = true))
       \/ (a = bucket_ s' /\ open_ h' = true /\ bucket_ s < a
           /\ forall b h, pages s !! b = Some (Header h) -> b < a).

(** The calls a client can make, and the state a call returns in. *)
Inductive Call : Type :=
  | CallAllocate (size : Z)
  | CallFree (data : Z).

Definition returns (c : Call) (s s' : State) : Prop :=
  match c with
  | CallAllocate size => exists p, allocate size s = Done p s'
  | CallFree data => free data s = Done tt s'
  end.

(** The states a client can drive the allocator into, starting from the
    empty state, with any sizes and any pointers. *)
Inductive reachable : State -> Prop :=
  | reach_init : reachable init
  | reach_call c s s' : reachable s -> returns c s s' -> reachable s'.

(** [run s s']: some sequence of calls leads from [s] to [s']. *)
Inductive run : State -> State -> Prop :=
  | run_refl s : run s s
  | run_call c s s1 s2 : run s s1 -> returns c s1 s2 -> run s s2.

(** ** What [free] leaves alone

    [shrinks_from s0 s]: from [s0] to [s] the context's bucket pointer and
    [brk] have not moved, no page has become mapped, and no [mmap] has been
    issued. *)

Definition is_mmap (e : Event) : bool :=
  match e with
  | Mmap _ _ => true
  | _ => false
  end.

Definition shrinks_from (s0 s : State) : Prop :=
  bucket_ s = bucket_ s0
  /\ brk s = brk s0
  /\ (forall a, pages s0 !! a = None -> pages s !! a = None)
  /\ exists l, trace s = trace s0 ++ l
               /\ forallb (fun e => negb (is_mmap e)) l = true.


(** ** Lock discipline

    [lock_state held tr] replays a trace from a state in which the mutex of
    bucket [held] is held (or none): a mutex may only be acquired when none
    is held, only the held one may be released, and a system call may only
    be made with no mutex held.  The result is the mutex held at the end, or
    [None] when the trace breaks one of these rules. *)
Fixpoint lock_state (held : option Z) (tr : list Event)
    : option (option Z) :=
  match tr with
  | [] => Some held
  | Acquire b :: tr' =>
      match held with
      | None => lock_state (Some b) tr'
      | Some _ => None
      end
  | Release b :: tr' =>
      match held with
      | Some b' => if b =? b' then lock_state None tr' else None
      | None => None
      end
  | _ :: tr' =>
      match held with
      | None => lock_state None tr'
      | Some _ => None
      end
  end.

(** The events since [s0] obey the discipline and leave [held] held. *)
Definition locks_since (s0 : State) (held : option Z) (s : State) : Prop :=
  exists l, trace s = trace s0 ++ l /\ lock_state None l = Some held.

Definition keeps_trace {A} (m : M A) : Prop :=
  forall s a s', m s = Done a s' -> trace s' = trace s.


(** Address [a] lies in a mapped page. *)
Definition mapped (s : State) (a : Z) : Prop :=
  is_Some (pages s !! (a - a mod pageSize)).


(** ** A client that allocates one block after the other *)

Fixpoint allocate_all (sizes : list Z) : M (list Z) :=
  match sizes with
  | [] => ret []
  | n :: rest =>
      p <- allocate n ;;
      ps <- allocate_all rest ;;
      ret (p :: ps)
  end.

(** Blocks laid out back to back from [start], each taking its aligned
    size. *)
Fixpoint layout (start : Z) (sizes : list Z) : list Z :=
  match sizes with
  | [] => []
  | n :: rest => start :: layout (start + CC_MEM_ALIGN n) rest
  end.

Fixpoint total_aligned (sizes : list Z) : Z :=
  match sizes with
  | [] => 0
  | n :: rest => CC_MEM_ALIGN n + total_aligned rest
  end.

Definition lock_pairs (b : Z) (sizes : list Z) : list Event :=
  concat (map (fun _ => [Acquire b; Release b]) sizes).


(** * Properties *)

(** ** Arithmetic of the machine integers and of CC_MEM_ALIGN *)

Lemma size_t_id x : 0 <= x < 2 ^ 64 -> size_t x = x.
Proof. intros H. unfold size_t. apply Z.mod_small. exact H. Qed.

Lemma uint32_id x : 0 <= x < 2 ^ 32 -> uint32 x = x.
Proof. intros H. unfold uint32. apply Z.mod_small. exact H. Qed.

Lemma uint16_id x : 0 <= x < 2 ^ 16 -> uint16 x = x.
Proof. intros H. unfold uint16. apply Z.mod_small. exact H. Qed.

Lemma align_raw_bounds x :
  0 <= x ->
  let y := (x / 16 + (if 0 <? x mod 16 then 1 else 0)) * 16 in
  x <= y < x + 16 /\ y mod 16 = 0.
Proof.
  intros Hx y. subst y.
  pose proof (Z.div_mod x 16 ltac:(lia)) as Hdm.
  pose proof (Z.mod_pos_bound x 16 ltac:(lia)) as Hb.
  split.
  - destruct (Z.ltb_spec 0 (x mod 16)); lia.
  - apply Z.mod_mul. lia.
Qed.

Lemma CC_MEM_ALIGN_spec x :
  0 <= x <= 2 ^ 64 - 16 ->
  x <= CC_MEM_ALIGN x < x + 16 /\ CC_MEM_ALIGN x mod 16 = 0.
Proof.
  intros Hx. unfold CC_MEM_ALIGN, CC_MEM_GRANULARITY.
  destruct (align_raw_bounds x ltac:(lia)) as [Hy Hm].
  rewrite size_t_id by lia. split; assumption.
Qed.


Lemma CC_MEM_ALIGN_range x : 0 <= CC_MEM_ALIGN x < 2 ^ 64.
Proof. unfold CC_MEM_ALIGN, size_t. apply Z.mod_pos_bound. lia. Qed.

Lemma CC_MEM_ALIGN_fixed x :
  0 <= x <= 2 ^ 64 - 16 -> x mod 16 = 0 -> CC_MEM_ALIGN x = x.
Proof.
  intros Hx Hm. destruct (CC_MEM_ALIGN_spec x Hx) as [Hy Hm'].
  apply Z.mod_divide in Hm; [|lia]. apply Z.mod_divide in Hm'; [|lia].
  destruct Hm as [k Hk]. destruct Hm' as [k' Hk']. lia.
Qed.

(** ** The page provider *)

Hypothesis pageSize_pos : 0 < pageSize.

Lemma pageCountOf_mul n : pageCountOf (n * pageSize) = n.
Proof.
  unfold pageCountOf.
  replace (n * pageSize + pageSize - 1) with ((pageSize - 1) + n * pageSize)
    by lia.
  rewrite Z.div_add by lia. rewrite Z.div_small by lia. lia.
Qed.

Lemma pageCountOf_one : pageCountOf pageSize = 1.
Proof.
  replace pageSize with (1 * pageSize) at 1 by lia. apply pageCountOf_mul.
Qed.

Lemma elem_of_page_range a addr n :
  a ∈ page_range addr n <-> exists i, 0 <= i < n /\ a = addr + i * pageSize.
Proof.
  unfold page_range. rewrite list_elem_of_fmap. split.
  - intros (i & -> & Hi). apply elem_of_seqZ in Hi. exists i.
    split; [lia|reflexivity].
  - intros (i & Hi & ->). exists i. split; [reflexivity|].
    apply elem_of_seqZ. lia.
Qed.

Lemma page_range_one addr : page_range addr 1 = [addr].
Proof.
  unfold page_range. rewrite seqZ_cons by lia. rewrite seqZ_nil by lia.
  cbn [fmap list_fmap]. f_equal. lia.
Qed.

Lemma lookup_map_pages addr n (m : gmap Z PageHead) a :
  map_pages addr n m !! a
  = if decide (a ∈ page_range addr n) then Some Raw else m !! a.
Proof.
  unfold map_pages. induction (page_range addr n) as [|x l IH]; cbn.
  - destruct (decide (a ∈ [])) as [H|_]; [inversion H|reflexivity].
  - destruct (decide (x = a)) as [->|Hne].
    + rewrite lookup_insert_eq.
      destruct (decide (a ∈ a :: l)) as [_|H]; [reflexivity|].
      exfalso. apply H. left.
    + rewrite lookup_insert_ne by exact Hne. rewrite IH.
      destruct (decide (a ∈ l)) as [Hin|Hin];
        destruct (decide (a ∈ x :: l)) as [Hin'|Hin']; try reflexivity.
      * exfalso. apply Hin'. right. exact Hin.
      * exfalso. apply Hin. inversion Hin'; subst; [congruence|assumption].
Qed.

Lemma lookup_unmap_pages addr n (m : gmap Z PageHead) a :
  unmap_pages addr n m !! a
  = if decide (a ∈ page_range addr n) then None else m !! a.
Proof.
  unfold unmap_pages. destruct (decide (a ∈ page_range addr n)) as [H|H].
  - apply lookup_foldr_delete. exact H.
  - apply lookup_foldr_delete_not_elem_of. exact H.
Qed.

Lemma unmap_pages_one addr (m : gmap Z PageHead) :
  unmap_pages addr 1 m = delete addr m.
Proof. unfold unmap_pages. rewrite page_range_one. reflexivity. Qed.

(** ** Running the monad *)

Lemma bind_ret {A B} (a : A) (k : A -> M B) s : bind (ret a) k s = k a s.
Proof. reflexivity. Qed.

Lemma bind_bind {A B C} (m : M A) (k : A -> M B) (k' : B -> M C) s :
  bind (bind m k) k' s = bind m (fun a => bind (k a) k') s.
Proof. unfold bind. destruct (m s); reflexivity. Qed.

Lemma bind_emit {B} e (k : unit -> M B) s :
  bind (emit e) k s
  = k tt (mkState (pages s) (brk s) (bucket_ s) (trace s ++ [e])).
Proof. reflexivity. Qed.

Lemma bind_acquire {B} b h (k : unit -> M B) s :
  pages s !! b = Some (Header h) ->
  bind (acquire b) k s
  = k tt (mkState (pages s) (brk s) (bucket_ s) (trace s ++ [Acquire b])).
Proof. intros H. unfold bind, acquire. rewrite H. reflexivity. Qed.

Lemma bind_release {B} b h (k : unit -> M B) s :
  pages s !! b = Some (Header h) ->
  bind (release b) k s
  = k tt (mkState (pages s) (brk s) (bucket_ s) (trace s ++ [Release b])).
Proof. intros H. unfold bind, release. rewrite H. reflexivity. Qed.

Lemma bind_get_bucket {B} (k : Z -> M B) s :
  bind get_bucket k s = k (bucket_ s) s.
Proof. reflexivity. Qed.

Lemma bind_set_bucket {B} b (k : unit -> M B) s :
  bind (set_bucket b) k s = k tt (mkState (pages s) (brk s) b (trace s)).
Proof. reflexivity. Qed.

Lemma bind_load_header {B} b h (k : BucketHeader -> M B) s :
  pages s !! b = Some (Header h) -> bind (load_header b) k s = k h s.
Proof. intros H. unfold bind, load_header. rewrite H. reflexivity. Qed.

Lemma bind_store_header {B} b h h0 (k : unit -> M B) s :
  pages s !! b = Some (Header h0) ->
  bind (store_header b h) k s
  = k tt (mkState (<[b := Header h]> (pages s)) (brk s) (bucket_ s) (trace s)).
Proof. intros H. unfold bind, store_header. rewrite H. reflexivity. Qed.

Lemma bind_construct_header {B} b h x (k : unit -> M B) s :
  pages s !! b = Some x ->
  bind (construct_header b h) k s
  = k tt (mkState (<[b := Header h]> (pages s)) (brk s) (bucket_ s) (trace s)).
Proof. intros H. unfold bind, construct_header. rewrite H. reflexivity. Qed.

Lemma bind_destroy_header {B} b h0 (k : unit -> M B) s :
  pages s !! b = Some (Header h0) ->
  bind (destroy_header b) k s
  = k tt (mkState (<[b := Raw]> (pages s)) (brk s) (bucket_ s) (trace s)).
Proof. intros H. unfold bind, destroy_header. rewrite H. reflexivity. Qed.

Lemma bind_load_u32 {B} a n (k : Z -> M B) s :
  pages s !! a = Some (Prefix n) -> bind (load_u32 a) k s = k n s.
Proof. intros H. unfold bind, load_u32. rewrite H. reflexivity. Qed.

Lemma bind_store_u32 {B} a n x (k : unit -> M B) s :
  pages s !! a = Some x ->
  bind (store_u32 a n) k s
  = k tt (mkState (<[a := Prefix n]> (pages s)) (brk s) (bucket_ s) (trace s)).
Proof. intros H. unfold bind, store_u32. rewrite H. reflexivity. Qed.

Lemma bind_assert_true {B} (k : unit -> M B) s :
  bind (CC_MEM_ASSERT true) k s = k tt s.
Proof. unfold bind, CC_MEM_ASSERT. rewrite Bool.andb_false_r. reflexivity. Qed.

Lemma assert_true s : CC_MEM_ASSERT true s = Done tt s.
Proof. unfold CC_MEM_ASSERT. rewrite Bool.andb_false_r. reflexivity. Qed.

Ltac proj := cbn [pages brk bucket_ trace].

Ltac tidy_trace := repeat rewrite <- app_assoc; cbn [app].

Lemma sys_munmap_ok addr len s :
  addr mod pageSize = 0 -> len <> 0 ->
  sys_munmap addr len s
  = Done 0 (mkState (unmap_pages addr (pageCountOf len) (pages s)) (brk s)
              (bucket_ s) (trace s ++ [Munmap addr len 0])).
Proof.
  intros Ha Hl. unfold sys_munmap. rewrite Ha.
  destruct (Z.eqb_spec len 0) as [?|_]; [contradiction|].
  cbn [Z.eqb negb orb]. reflexivity.
Qed.

Lemma sys_mmap_ok len s :
  len <> 0 -> brk s + pageCountOf len * pageSize <= MAP_FAILED ->
  brk s <> MAP_FAILED ->
  sys_mmap len s
  = Done (brk s)
      (mkState (map_pages (brk s) (pageCountOf len) (pages s))
         (brk s + pageCountOf len * pageSize) (bucket_ s)
         (trace s ++ [Mmap len (brk s)])).
Proof.
  intros Hl Hb Hne. unfold sys_mmap.
  destruct (Z.eqb_spec len 0) as [?|_]; [contradiction|].
  destruct (Z.ltb_spec MAP_FAILED (brk s + pageCountOf len * pageSize));
    [lia|].
  cbn [orb]. destruct (Z.eqb_spec (brk s) MAP_FAILED); [contradiction|].
  reflexivity.
Qed.

(** ** Deallocation dispatch *)

Lemma free_cases (s : State) (data : Z) :
  pageSize < 2 ^ 32 -> 0 <= data < 2 ^ 64 ->
  let offset := data mod pageSize in
  (prefixWidth < offset ->
   forall h, pages s !! (data - offset) = Some (Header h) ->
     let b := data - offset in
     let c := uint16 (objectCount_ h - 1) in
     free data s =
       if (c =? 0) && negb (open_ h) then
         Done tt (mkState (delete b (pages s)) (brk s) (bucket_ s)
                    (trace s ++ [Acquire b; Release b; Munmap b pageSize 0]))
       else
         Done tt (mkState
                    (<[b := Header (mkHeader (preallocCount_ h)
                                      (bytesDirty_ h) c (open_ h))]> (pages s))
                    (brk s) (bucket_ s)
                    (trace s ++ [Acquire b; Release b])))
  /\ (offset = 0 ->
      free data s =
        Done tt (mkState (delete data (pages s)) (brk s) (bucket_ s)
                   (trace s ++ [Munmap data pageSize 0])))
  /\ (offset = prefixWidth ->
      forall n, pages s !! (data - prefixWidth) = Some (Prefix n) ->
        0 < n -> n * pageSize < 2 ^ 64 ->
        free data s =
          Done tt (mkState (unmap_pages (data - prefixWidth) n (pages s))
                     (brk s) (bucket_ s)
                     (trace s ++ [Munmap (data - prefixWidth)
                                    (n * pageSize) 0]))).
Proof.
  intros Hps Hd offset.
  pose proof (Z.mod_pos_bound data pageSize pageSize_pos) as Hoff.
  pose proof (Z.div_mod data pageSize ltac:(lia)) as Hdm.
  assert (Hu : uint32 (data mod pageSize) = offset)
    by (apply uint32_id; lia).
  assert (Hbase : (data - offset) mod pageSize = 0).
  { subst offset. replace (data - data mod pageSize)
      with (0 + (data / pageSize) * pageSize) by lia.
    rewrite Z.mod_add by lia. apply Z.mod_0_l. lia. }
  assert (Hdiv : 0 <= data / pageSize) by (apply Z.div_pos; lia).
  assert (Hb64 : size_t (data - offset) = data - offset).
  { apply size_t_id. subst offset. nia. }
  repeat split.
  - intros Hgt h Hh b c. unfold free. rewrite Hu, Hb64.
    destruct (Z.ltb_spec prefixWidth offset); [|lia].
    fold b. rewrite (bind_acquire b h) by exact Hh.
    rewrite (bind_load_header b h) by exact Hh.
    rewrite (bind_store_header b _ h) by exact Hh. fold c.
    rewrite (bind_release b (mkHeader (preallocCount_ h) (bytesDirty_ h) c
                               (open_ h)))
      by (proj; apply lookup_insert_eq).
    proj.
    destruct ((c =? 0) && negb (open_ h)).
    + rewrite (bind_destroy_header b (mkHeader (preallocCount_ h)
                 (bytesDirty_ h) c (open_ h)))
        by (proj; apply lookup_insert_eq).
      proj. unfold bind. rewrite sys_munmap_ok; [|exact Hbase|lia].
      proj. rewrite pageCountOf_one, unmap_pages_one.
      rewrite insert_insert_eq, delete_insert_eq.
      cbn [Z.eqb]. rewrite assert_true. tidy_trace. reflexivity.
    + unfold ret. tidy_trace. reflexivity.
  - intros H0. unfold free. rewrite Hu.
    destruct (Z.ltb_spec prefixWidth offset); [unfold prefixWidth in *; lia|].
    destruct (Z.eqb_spec offset 0); [|lia].
    unfold bind. rewrite sys_munmap_ok; [|exact H0|lia].
    rewrite pageCountOf_one, unmap_pages_one.
    cbn [Z.eqb]. rewrite assert_true. reflexivity.
  - intros H4 n Hn Hpos Hlt. unfold free. rewrite Hu.
    destruct (Z.ltb_spec prefixWidth offset); [lia|].
    destruct (Z.eqb_spec offset 0); [unfold prefixWidth in *; lia|].
    destruct (Z.eqb_spec offset prefixWidth); [|lia].
    rewrite <- H4 in *. rewrite Hb64.
    rewrite (bind_load_u32 _ n) by exact Hn.
    assert (Hsz : size_t (n * pageSize) = n * pageSize)
      by (apply size_t_id; nia).
    rewrite Hsz. unfold bind. rewrite sys_munmap_ok; [|exact Hbase|nia].
    rewrite pageCountOf_mul. cbn [Z.eqb]. rewrite assert_true. reflexivity.
Qed.

(** C1.  [free] takes the pointer only and branches on
    [offset = data mod pageSize]: above the prefix width the pointer is an
    object of the bucket whose header sits at [data - offset] (its live count
    is decremented and the page goes when the count reaches zero on a closed
    bucket); at offset 0 exactly the one page at [data] is unmapped; at the
    prefix width the page count stored at [data - prefixWidth] is read and
    exactly that many pages are unmapped from there. *)
Theorem free_dispatch (s : State) (data : Z) :
  pageSize < 2 ^ 32 -> 0 <= data < 2 ^ 64 ->
  let offset := data mod pageSize in
  (prefixWidth < offset ->
   forall h, pages s !! (data - offset) = Some (Header h) ->
     let b := data - offset in
     let c := uint16 (objectCount_ h - 1) in
     free data s =
       if (c =? 0) && negb (open_ h) then
         Done tt (mkState (delete b (pages s)) (brk s) (bucket_ s)
                    (trace s ++ [Acquire b; Release b; Munmap b pageSize 0]))
       else
         Done tt (mkState
                    (<[b := Header (mkHeader (preallocCount_ h)
                                      (bytesDirty_ h) c (open_ h))]> (pages s))
                    (brk s) (bucket_ s)
                    (trace s ++ [Acquire b; Release b])))
  /\ (offset = 0 ->
      free data s =
        Done tt (mkState (delete data (pages s)) (brk s) (bucket_ s)
                   (trace s ++ [Munmap data pageSize 0])))
  /\ (offset = prefixWidth ->
      forall n, pages s !! (data - prefixWidth) = Some (Prefix n) ->
        0 < n -> n * pageSize < 2 ^ 64 ->
        free data s =
          Done tt (mkState (unmap_pages (data - prefixWidth) n (pages s))
                     (brk s) (bucket_ s)
                     (trace s ++ [Munmap (data - prefixWidth)
                                    (n * pageSize) 0]))).
Proof. exact (free_cases s data). Qed.

(** ** The two halves of the small-object branch *)

Lemma events_since_app s s' l :
  trace s' = trace s ++ l -> events_since s s' = l.
Proof.
  intros H. unfold events_since. rewrite H. apply drop_app_length.
Qed.

Lemma allocate_in_bucket_fits b size h s :
  pages s !! b = Some (Header h) ->
  size <= size_t (pageSize - bytesDirty_ h) ->
  allocate_in_bucket b size s
  = Done (inl (size_t (b + bytesDirty_ h)))
      (mkState
         (<[b := Header (mkHeader (preallocCount_ h)
                           (uint16 (bytesDirty_ h + size))
                           (uint16 (objectCount_ h + 1)) (open_ h))]>
            (pages s))
         (brk s) (bucket_ s) (trace s ++ [Acquire b; Release b])).
Proof.
  intros Hh Hfit. unfold allocate_in_bucket.
  rewrite (bind_acquire b h) by exact Hh.
  rewrite (bind_load_header b h) by exact Hh.
  destruct (Z.leb_spec size (size_t (pageSize - bytesDirty_ h))); [|lia].
  rewrite (bind_store_header b _ h) by exact Hh.
  erewrite bind_release by (proj; apply lookup_insert_eq).
  proj. unfold ret. tidy_trace. reflexivity.
Qed.

Lemma allocate_in_bucket_full b size h s :
  pages s !! b = Some (Header h) ->
  size_t (pageSize - bytesDirty_ h) < size ->
  b mod pageSize = 0 ->
  allocate_in_bucket b size s
  = Done (inr (preallocCount_ h))
      (mkState (closed_pages b h (pages s)) (brk s) (bucket_ s)
         (trace s ++ close_events b h)).
Proof.
  intros Hh Hfull Hb. unfold allocate_in_bucket, closed_pages, close_events.
  rewrite (bind_acquire b h) by exact Hh.
  rewrite (bind_load_header b h) by exact Hh.
  destruct (Z.leb_spec size (size_t (pageSize - bytesDirty_ h))); [lia|].
  rewrite (bind_store_header b _ h) by exact Hh.
  erewrite bind_release by (proj; apply lookup_insert_eq).
  proj.
  destruct (objectCount_ h =? 0).
  - rewrite bind_bind.
    rewrite (bind_destroy_header b (mkHeader (preallocCount_ h)
               (bytesDirty_ h) (objectCount_ h) false))
      by (proj; apply lookup_insert_eq).
    proj. rewrite bind_bind. unfold bind at 1.
    rewrite sys_munmap_ok; [|exact Hb|lia]. proj.
    cbn [Z.eqb]. rewrite bind_assert_true. unfold ret.
    rewrite pageCountOf_one, unmap_pages_one.
    rewrite insert_insert_eq, delete_insert_eq. tidy_trace. reflexivity.
  - rewrite bind_ret. unfold ret. tidy_trace. reflexivity.
Qed.

Lemma allocate_new_bucket_reuse b k size x s :
  0 < k ->
  pages s !! size_t (b + pageSize) = Some x ->
  size_t (b + pageSize) <> MAP_FAILED ->
  allocate_new_bucket b k size s
  = Done (size_t (size_t (b + pageSize) + headerWidth))
      (mkState
         (<[size_t (b + pageSize) :=
              Header (mkHeader (uint16 (k - 1)) (uint16 (headerWidth + size))
                        1 true)]> (pages s))
         (brk s) (size_t (b + pageSize)) (trace s)).
Proof.
  intros Hk Hx Hne. unfold allocate_new_bucket.
  destruct (Z.ltb_spec 0 k); [|lia].
  rewrite bind_ret.
  destruct (Z.eqb_spec (size_t (b + pageSize)) MAP_FAILED); [contradiction|].
  cbn [negb]. rewrite bind_assert_true.
  rewrite (bind_construct_header _ _ x) by exact Hx.
  rewrite bind_set_bucket. proj. reflexivity.
Qed.

Lemma allocate_new_bucket_fresh b k size s :
  k <= 0 ->
  pageSize * CC_MEM_PAGE_PREALLOC < 2 ^ 64 ->
  0 < brk s -> brk s + CC_MEM_PAGE_PREALLOC * pageSize <= MAP_FAILED ->
  allocate_new_bucket b k size s
  = Done (size_t (brk s + headerWidth))
      (mkState
         (<[brk s :=
              Header (mkHeader (CC_MEM_PAGE_PREALLOC - 1)
                        (uint16 (headerWidth + size)) 1 true)]>
            (map_pages (brk s) CC_MEM_PAGE_PREALLOC (pages s)))
         (brk s + CC_MEM_PAGE_PREALLOC * pageSize) (brk s)
         (trace s ++ [Mmap (pageSize * CC_MEM_PAGE_PREALLOC) (brk s)])).
Proof.
  intros Hk Hlen Hbrk Hroom. unfold allocate_new_bucket.
  destruct (Z.ltb_spec 0 k); [lia|].
  unfold CC_MEM_PAGE_PREALLOC in *.
  rewrite (size_t_id (pageSize * 16)) by lia.
  assert (Hpc : pageCountOf (pageSize * 16) = 16)
    by (rewrite Z.mul_comm; apply pageCountOf_mul).
  unfold bind at 1. rewrite sys_mmap_ok; rewrite ?Hpc; [|lia|lia|lia].
  destruct (Z.eqb_spec (brk s) MAP_FAILED); [lia|].
  cbn [negb]. rewrite bind_assert_true.
  rewrite (bind_construct_header _ _ Raw).
  2:{ proj. rewrite lookup_map_pages.
      destruct (decide (brk s ∈ page_range (brk s) 16)) as [_|Hn];
        [reflexivity|].
      exfalso. apply Hn. apply elem_of_page_range. exists 0. lia. }
  rewrite bind_set_bucket. proj. reflexivity.
Qed.

(** ** Small objects *)

Hypothesis pageSize_u16 : pageSize < 2 ^ 16.
Hypothesis headerWidth_le : headerWidth <= pageSize.

Lemma headerWidth_nonneg : 0 <= headerWidth.
Proof. apply CC_MEM_ALIGN_range. Qed.

Lemma small_limit : size_t (pageSize - headerWidth) = pageSize - headerWidth.
Proof. pose proof headerWidth_nonneg. apply size_t_id. lia. Qed.

Lemma allocate_fast_eq (n : Z) (h : BucketHeader) (s : State) :
  let b := bucket_ s in
  let size := CC_MEM_ALIGN n in
  size <= size_t (pageSize - headerWidth) ->
  b <> 0 -> 0 <= b -> b + pageSize < 2 ^ 64 ->
  pages s !! b = Some (Header h) ->
  0 <= bytesDirty_ h -> bytesDirty_ h + size <= pageSize ->
  0 <= objectCount_ h < 2 ^ 16 - 1 ->
  allocate n s
  = Done (b + bytesDirty_ h)
      (mkState
         (<[b := Header (mkHeader (preallocCount_ h) (bytesDirty_ h + size)
                           (objectCount_ h + 1) (open_ h))]> (pages s))
         (brk s) b (trace s ++ [Acquire b; Release b])).
Proof.
  intros b size Hsmall Hb0 Hb Hb64 Hh Hbd Hfit Hcnt.
  pose proof (CC_MEM_ALIGN_range n) as Hsz. fold size in Hsz.
  unfold allocate. rewrite bind_get_bucket. fold b. fold size.
  destruct (Z.leb_spec size (size_t (pageSize - headerWidth))); [|lia].
  destruct (Z.eqb_spec b 0); [contradiction|]. cbn [negb].
  unfold bind at 1.
  rewrite (allocate_in_bucket_fits b size h) by
    (try exact Hh; rewrite size_t_id; lia).
  rewrite (size_t_id (b + bytesDirty_ h)) by lia.
  rewrite (uint16_id (bytesDirty_ h + size)) by lia.
  rewrite (uint16_id (objectCount_ h + 1)) by lia.
  unfold ret. reflexivity.
Qed.


Lemma lookup_closed_pages_ne b h (m : gmap Z PageHead) a :
  a <> b -> closed_pages b h m !! a = m !! a.
Proof.
  intros Hne. unfold closed_pages. destruct (objectCount_ h =? 0).
  - apply lookup_delete_ne. congruence.
  - apply lookup_insert_ne. congruence.
Qed.

Lemma allocate_rollover_cases (n : Z) (s : State) :
  let size := CC_MEM_ALIGN n in
  let fresh m :=
    <[brk s := Header (mkHeader (CC_MEM_PAGE_PREALLOC - 1)
                         (headerWidth + size) 1 true)]>
      (map_pages (brk s) CC_MEM_PAGE_PREALLOC m) in
  size <= size_t (pageSize - headerWidth) ->
  0 < brk s ->
  (bucket_ s = 0 ->
   brk s + CC_MEM_PAGE_PREALLOC * pageSize <= MAP_FAILED ->
   allocate n s =
     Done (brk s + headerWidth)
       (mkState (fresh (pages s))
          (brk s + CC_MEM_PAGE_PREALLOC * pageSize) (brk s)
          (trace s ++ [Mmap (pageSize * CC_MEM_PAGE_PREALLOC) (brk s)])))
  /\ (forall h,
      let b := bucket_ s in
      b <> 0 -> 0 <= b -> b mod pageSize = 0 ->
      pages s !! b = Some (Header h) ->
      0 <= bytesDirty_ h <= pageSize ->
      pageSize < bytesDirty_ h + size ->
      0 <= preallocCount_ h < 2 ^ 16 ->
      (0 < preallocCount_ h ->
       b + 2 * pageSize <= MAP_FAILED ->
       forall x, pages s !! (b + pageSize) = Some x ->
         allocate n s =
           Done (b + pageSize + headerWidth)
             (mkState
                (<[b + pageSize :=
                     Header (mkHeader (preallocCount_ h - 1)
                               (headerWidth + size) 1 true)]>
                   (closed_pages b h (pages s)))
                (brk s) (b + pageSize)
                (trace s ++ close_events b h)))
      /\ (preallocCount_ h = 0 ->
          brk s + CC_MEM_PAGE_PREALLOC * pageSize <= MAP_FAILED ->
          allocate n s =
            Done (brk s + headerWidth)
              (mkState (fresh (closed_pages b h (pages s)))
                 (brk s + CC_MEM_PAGE_PREALLOC * pageSize) (brk s)
                 (trace s ++ close_events b h
                    ++ [Mmap (pageSize * CC_MEM_PAGE_PREALLOC) (brk s)])))).
Proof.
  intros size fresh Hsmall Hbrk.
  pose proof (CC_MEM_ALIGN_range n) as Hsz. fold size in Hsz.
  pose proof headerWidth_nonneg as Hhw.
  rewrite small_limit in Hsmall.
  assert (Hu : uint16 (headerWidth + size) = headerWidth + size)
    by (apply uint16_id; lia).
  assert (Hlen : pageSize * CC_MEM_PAGE_PREALLOC < 2 ^ 64)
    by (unfold CC_MEM_PAGE_PREALLOC; lia).
  split.
  - intros Hnull Hroom. unfold allocate. rewrite bind_get_bucket.
    fold size. rewrite small_limit.
    destruct (Z.leb_spec size (pageSize - headerWidth)); [|lia].
    rewrite Hnull. cbn [Z.eqb negb]. rewrite bind_ret.
    rewrite allocate_new_bucket_fresh; [|lia|exact Hlen|exact Hbrk|exact Hroom].
    rewrite Hu. rewrite size_t_id; [reflexivity|].
    unfold CC_MEM_PAGE_PREALLOC, MAP_FAILED in *. lia.
  - intros h b Hb0 Hb Hal Hh Hbd Hfull Hk.
    assert (Hrun : allocate n s
                   = allocate_new_bucket b (preallocCount_ h) size
                       (mkState (closed_pages b h (pages s)) (brk s)
                          (bucket_ s) (trace s ++ close_events b h))).
    { unfold allocate. rewrite bind_get_bucket. fold size. fold b.
      rewrite small_limit.
      destruct (Z.leb_spec size (pageSize - headerWidth)); [|lia].
      destruct (Z.eqb_spec b 0); [contradiction|]. cbn [negb].
      unfold bind at 1.
      rewrite (allocate_in_bucket_full b size h);
        [reflexivity|exact Hh| |exact Hal].
      rewrite size_t_id; lia. }
    split.
    + intros Hpos Hroom x Hx.
      assert (Hnext : size_t (b + pageSize) = b + pageSize)
        by (apply size_t_id; unfold MAP_FAILED in *; lia).
      rewrite Hrun.
      rewrite (allocate_new_bucket_reuse _ _ _ x); rewrite ?Hnext.
      * rewrite Hu. rewrite (uint16_id (preallocCount_ h - 1)) by lia.
        rewrite size_t_id; [reflexivity|].
        unfold MAP_FAILED in *. lia.
      * exact Hpos.
      * proj. rewrite lookup_closed_pages_ne by lia. exact Hx.
      * lia.
    + intros Hzero Hroom. rewrite Hrun.
      rewrite allocate_new_bucket_fresh; proj;
        [|lia|exact Hlen|exact Hbrk|exact Hroom].
      rewrite Hu. rewrite size_t_id.
      * tidy_trace. reflexivity.
      * unfold CC_MEM_PAGE_PREALLOC, MAP_FAILED in *. lia.
Qed.


(** ** Triples *)

Lemma hoare_ret {A} (P : State -> Prop) (a : A) (Q : A -> State -> Prop) :
  (forall s, P s -> Q a s) -> hoare P (ret a) Q.
Proof. intros H s a' s' HP E. inversion E; subst. apply H. exact HP. Qed.

Lemma hoare_bind {A B} P (m : M A) Q (k : A -> M B) R :
  hoare P m Q -> (forall a, hoare (Q a) (k a) R) -> hoare P (bind m k) R.
Proof.
  intros Hm Hk s b s' HP E. unfold bind in E.
  destruct (m s) as [a s1| |] eqn:Em; try discriminate.
  eapply Hk; [|exact E]. eapply Hm; eassumption.
Qed.

Lemma hoare_weaken {A} (P P' : State -> Prop) (m : M A)
    (Q Q' : A -> State -> Prop) :
  hoare P' m Q' -> (forall s, P s -> P' s) ->
  (forall a s, Q' a s -> Q a s) -> hoare P m Q.
Proof. intros H HP HQ s a s' Hs E. apply HQ. eapply H; eauto. Qed.

Lemma hoare_pure {A} (phi : Prop) (P : State -> Prop) (m : M A) Q :
  (phi -> hoare P m Q) -> hoare (fun s => phi /\ P s) m Q.
Proof. intros H s a s' [Hphi HP] E. eapply H; eauto. Qed.

(** *** Well-formed page tables *)

Lemma page_addr_mono b0 b1 a : b0 <= b1 -> page_addr b0 a -> page_addr b1 a.
Proof. unfold page_addr. lia. Qed.

Lemma pages_wf_mono b0 b1 m : b0 <= b1 -> pages_wf b0 m -> pages_wf b1 m.
Proof.
  intros Hle [Hk Hh]. split; [|exact Hh].
  intros a x Hx. eapply page_addr_mono; eauto.
Qed.

Lemma pages_wf_delete b0 m a : pages_wf b0 m -> pages_wf b0 (delete a m).
Proof.
  intros [Hk Hh]. split.
  - intros a' x Hx. apply lookup_delete_Some in Hx as [_ Hx]. eauto.
  - intros a' h Hx. apply lookup_delete_Some in Hx as [_ Hx]. eauto.
Qed.

Lemma pages_wf_unmap b0 m addr n :
  pages_wf b0 m -> pages_wf b0 (unmap_pages addr n m).
Proof.
  intros Hwf. unfold unmap_pages.
  induction (page_range addr n) as [|x l IH]; cbn; [exact Hwf|].
  apply pages_wf_delete. exact IH.
Qed.

Lemma pages_wf_insert b0 m a x :
  pages_wf b0 m -> page_addr b0 a ->
  (forall h, x = Header h -> header_wf h) ->
  pages_wf b0 (<[a := x]> m).
Proof.
  intros [Hk Hh] Ha Hx. split.
  - intros a' y Hy. apply lookup_insert_Some in Hy as [[<- _]|[_ Hy]]; eauto.
  - intros a' h Hy.
    apply lookup_insert_Some in Hy as [[<- Hy]|[_ Hy]]; eauto.
Qed.

Lemma pages_wf_map_pages b0 m n :
  0 < b0 -> b0 mod pageSize = 0 -> 0 <= n ->
  pages_wf b0 m -> pages_wf (b0 + n * pageSize) (map_pages b0 n m).
Proof.
  intros Hpos Hal Hn [Hk Hh]. split.
  - intros a x Hx. rewrite lookup_map_pages in Hx.
    destruct (decide (a ∈ page_range b0 n)) as [Hin|_].
    + apply elem_of_page_range in Hin as (i & Hi & ->).
      unfold page_addr. split; [nia|]. split; [|nia].
      rewrite Z.mod_add by lia. exact Hal.
    + eapply page_addr_mono; [|eapply Hk; exact Hx]. nia.
  - intros a h Hx. rewrite lookup_map_pages in Hx.
    destruct (decide (a ∈ page_range b0 n)); [discriminate|]. eauto.
Qed.

Lemma state_wf_init : state_wf init.
Proof.
  split; cbn.
  - split; [lia|]. split; [apply Z.mod_same; lia|].
    unfold MAP_FAILED. lia.
  - split; intros a x Hx; rewrite lookup_empty in Hx; discriminate.
  - left. reflexivity.
Qed.

(** *** The primitives keep the state well-formed *)

Ltac done_inv :=
  match goal with
  | E : Done _ _ = Done _ _ |- _ => inversion E; subst; clear E
  | E : Undefined = Done _ _ |- _ => discriminate E
  | E : Aborted _ = Done _ _ |- _ => discriminate E
  end.

Lemma wf_emit e : hoare state_wf (emit e) (fun _ => state_wf).
Proof.
  intros s a s' [Hb Hp Hk] E. unfold emit in E. done_inv.
  split; assumption.
Qed.

Lemma wf_acquire b : hoare state_wf (acquire b) (fun _ => state_wf).
Proof.
  intros s a s' Hwf E. unfold acquire in E.
  destruct (pages s !! b) as [[|h|]|]; try discriminate E.
  eapply wf_emit; eassumption.
Qed.

Lemma wf_release b : hoare state_wf (release b) (fun _ => state_wf).
Proof.
  intros s a s' Hwf E. unfold release in E.
  destruct (pages s !! b) as [[|h|]|]; try discriminate E.
  eapply wf_emit; eassumption.
Qed.

Lemma wf_assert c : hoare state_wf (CC_MEM_ASSERT c) (fun _ => state_wf).
Proof.
  intros s a s' Hwf E. unfold CC_MEM_ASSERT in E.
  destruct (debug && negb c); done_inv. exact Hwf.
Qed.

Lemma wf_get_bucket :
  hoare state_wf get_bucket
    (fun b s => state_wf s
                /\ (b = 0 \/ (0 < b /\ b mod pageSize = 0
                              /\ b + pageSize <= MAP_FAILED))).
Proof.
  intros s a s' Hwf E. unfold get_bucket in E. done_inv.
  split; [exact Hwf|]. destruct Hwf as [(_ & _ & Hb) _ [H0|(H1 & H2 & H3)]].
  - left. exact H0.
  - right. lia.
Qed.

Lemma wf_load_header b :
  hoare state_wf (load_header b) (fun h s => state_wf s /\ header_wf h).
Proof.
  intros s a s' Hwf E. unfold load_header in E.
  destruct (pages s !! b) as [[|h|]|] eqn:Hl; done_inv.
  split; [exact Hwf|]. destruct Hwf as [_ [_ Hh] _]. eauto.
Qed.

Lemma wf_update b x s :
  state_wf s -> is_Some (pages s !! b) ->
  (forall h, x = Header h -> header_wf h) ->
  state_wf (set_pages (insert b x) s).
Proof.
  intros [Hb Hp Hk] [y Hy] Hx. split; cbn; try assumption.
  apply pages_wf_insert; try assumption.
  destruct Hp as [Hp _]. eauto.
Qed.

Lemma wf_store_header b h :
  header_wf h -> hoare state_wf (store_header b h) (fun _ => state_wf).
Proof.
  intros Hh s a s' Hwf E. unfold store_header in E.
  destruct (pages s !! b) as [[|h0|]|] eqn:Hl; done_inv.
  apply wf_update; [exact Hwf|eauto|]. intros ? [= <-]. exact Hh.
Qed.

Lemma wf_construct_header b h :
  header_wf h ->
  hoare state_wf (construct_header b h)
    (fun _ s => state_wf s /\ page_addr (brk s) b).
Proof.
  intros Hh s a s' Hwf E. unfold construct_header in E.
  destruct (pages s !! b) as [x|] eqn:Hl; done_inv. split.
  - apply wf_update; [exact Hwf|eauto|]. intros ? [= <-]. exact Hh.
  - cbn. destruct Hwf as [_ [Hp _] _]. eauto.
Qed.

Lemma wf_destroy_header b :
  hoare state_wf (destroy_header b) (fun _ => state_wf).
Proof.
  intros s a s' Hwf E. unfold destroy_header in E.
  destruct (pages s !! b) as [[|h0|]|] eqn:Hl; done_inv.
  apply wf_update; [exact Hwf|eauto|]. intros ? [=].
Qed.

Lemma wf_load_u32 b : hoare state_wf (load_u32 b) (fun _ => state_wf).
Proof.
  intros s a s' Hwf E. unfold load_u32 in E.
  destruct (pages s !! b) as [[|h|]|] eqn:Hl; done_inv. exact Hwf.
Qed.

Lemma wf_store_u32 b n : hoare state_wf (store_u32 b n) (fun _ => state_wf).
Proof.
  intros s a s' Hwf E. unfold store_u32 in E.
  destruct (pages s !! b) as [x|] eqn:Hl; done_inv.
  apply wf_update; [exact Hwf|eauto|]. intros ? [=].
Qed.

Lemma wf_set_bucket b :
  hoare (fun s => state_wf s /\ page_addr (brk s) b) (set_bucket b)
    (fun _ => state_wf).
Proof.
  intros s a s' [[Hb Hp Hk] Hpa] E. unfold set_bucket in E. done_inv.
  split; cbn; try assumption. right. exact Hpa.
Qed.

Lemma wf_sys_munmap addr len :
  hoare state_wf (sys_munmap addr len) (fun _ => state_wf).
Proof.
  intros s a s' [Hb Hp Hk] E. unfold sys_munmap, bind, emit, ret in E.
  destruct (negb (addr mod pageSize =? 0) || (len =? 0));
    cbn in E; done_inv; split; cbn; try assumption.
  apply pages_wf_unmap. exact Hp.
Qed.

Lemma wf_sys_mmap len :
  0 <= len -> hoare state_wf (sys_mmap len) (fun _ => state_wf).
Proof.
  intros Hlen s a s' [(Hb1 & Hb2 & Hb3) Hp Hk] E.
  assert (Hn : 0 <= pageCountOf len)
    by (unfold pageCountOf; apply Z.div_pos; lia).
  unfold sys_mmap, bind, emit, ret in E.
  destruct ((len =? 0)
            || (MAP_FAILED <? brk s + pageCountOf len * pageSize)) eqn:Hc.
  - rewrite Z.eqb_refl in E. done_inv. split; cbn; auto.
  - apply Bool.orb_false_iff in Hc as [_ Hc]. apply Z.ltb_ge in Hc.
    destruct (brk s =? MAP_FAILED); cbn in E; done_inv;
      [split; cbn; auto|].
    split; cbn.
    + split; [nia|]. split; [|exact Hc].
      rewrite Z.mod_add by lia. exact Hb2.
    + apply pages_wf_map_pages; assumption.
    + destruct Hk as [H0|Hk]; [left; exact H0|right].
      eapply page_addr_mono; [|exact Hk]. nia.
Qed.

(** *** The entry points keep the state well-formed *)

Lemma hoare_frame {A} (phi : Prop) (P : State -> Prop) (m : M A) Q :
  hoare P m Q -> hoare (fun s => P s /\ phi) m (fun a s => Q a s /\ phi).
Proof. intros H s a s' [HP Hphi] E. split; [eapply H; eauto|exact Hphi]. Qed.

Lemma hoare_pure_r {A} (phi : Prop) (P : State -> Prop) (m : M A) Q :
  (phi -> hoare P m Q) -> hoare (fun s => P s /\ phi) m Q.
Proof. intros H s a s' [HP Hphi] E. eapply H; eauto. Qed.

Lemma CC_MEM_ALIGN_mod16 x : CC_MEM_ALIGN x mod 16 = 0.
Proof.
  unfold CC_MEM_ALIGN, size_t, CC_MEM_GRANULARITY.
  rewrite Z.mod_mod_divide by (exists (2 ^ 60); reflexivity).
  apply Z.mod_mul. lia.
Qed.

Lemma mod_offset b o :
  b mod pageSize = 0 -> 0 <= o < pageSize -> (b + o) mod pageSize = o.
Proof.
  intros Hb Ho. pose proof (Z.div_mod b pageSize ltac:(lia)) as Hdm.
  replace (b + o) with (o + b / pageSize * pageSize) by lia.
  rewrite Z.mod_add by lia. apply Z.mod_small. exact Ho.
Qed.

Lemma header_wf_bump h size :
  header_wf h -> 0 <= size -> size mod 16 = 0 ->
  bytesDirty_ h + size <= pageSize ->
  header_wf (mkHeader (preallocCount_ h) (uint16 (bytesDirty_ h + size))
               (uint16 (objectCount_ h + 1)) (open_ h)).
Proof.
  intros (Hbd & Hm & Hc & Hk) Hs Hsm Hfit. unfold CC_MEM_GRANULARITY in *.
  pose proof headerWidth_nonneg.
  rewrite (uint16_id (bytesDirty_ h + size)) by lia.
  unfold header_wf; cbn. repeat split; try lia.
  - unfold CC_MEM_GRANULARITY. rewrite Z.add_mod by lia.
    rewrite Hm, Hsm. reflexivity.
  - apply Z.mod_pos_bound. lia.
  - apply Z.mod_pos_bound. lia.
Qed.

Lemma header_wf_set_count h c b :
  header_wf h ->
  header_wf (mkHeader (preallocCount_ h) (bytesDirty_ h) (uint16 c) b).
Proof.
  intros (Hbd & Hm & Hc & Hk). unfold header_wf; cbn.
  repeat split; try lia; try assumption; apply Z.mod_pos_bound; lia.
Qed.

Lemma header_wf_close h :
  header_wf h ->
  header_wf (mkHeader (preallocCount_ h) (bytesDirty_ h) (objectCount_ h)
               false).
Proof. intros H. exact H. Qed.

Lemma header_wf_new k size :
  0 <= size <= pageSize - headerWidth -> size mod 16 = 0 ->
  header_wf (mkHeader (uint16 k) (uint16 (headerWidth + size)) 1 true).
Proof.
  intros Hs Hsm. pose proof headerWidth_nonneg.
  rewrite (uint16_id (headerWidth + size)) by lia.
  unfold header_wf; cbn. repeat split; try lia.
  - unfold CC_MEM_GRANULARITY. rewrite Z.add_mod by lia.
    unfold headerWidth at 1. rewrite CC_MEM_ALIGN_mod16, Hsm. reflexivity.
  - apply Z.mod_pos_bound. lia.
  - apply Z.mod_pos_bound. lia.
Qed.

Ltac hstep lem :=
  eapply hoare_bind; [apply lem|]; intros ?; cbv beta.

Lemma wf_allocate_in_bucket b size :
  0 < b -> b mod pageSize = 0 -> b + pageSize <= MAP_FAILED ->
  0 <= size -> size mod 16 = 0 ->
  hoare state_wf (allocate_in_bucket b size)
    (fun r s => state_wf s
                /\ match r with
                   | inl p => CC_MEM_GRANULARITY <= size -> small_offset p
                   | inr _ => True
                   end).
Proof.
  intros Hb Hal Hb64 Hs Hsm. unfold allocate_in_bucket.
  hstep wf_acquire.
  eapply hoare_bind; [apply wf_load_header|]. intros h. cbv beta.
  apply hoare_pure_r. intros Hh.
  pose proof headerWidth_nonneg as Hhw.
  pose proof Hh as (Hbd & Hm & Hc & Hk).
  rewrite (size_t_id (pageSize - bytesDirty_ h)) by lia.
  destruct (Z.leb_spec size (pageSize - bytesDirty_ h)) as [Hfit|Hfull].
  - eapply hoare_bind;
      [apply wf_store_header; apply header_wf_bump; try assumption; lia|].
    intros ?. hstep wf_release. apply hoare_ret. intros s Hwf.
    split; [exact Hwf|]. intros H16. unfold CC_MEM_GRANULARITY in *.
    rewrite size_t_id by (unfold MAP_FAILED in *; lia).
    unfold small_offset, CC_MEM_GRANULARITY.
    rewrite mod_offset by (try assumption; lia).
    split; [lia|exact Hm].
  - eapply hoare_bind; [apply wf_store_header; apply header_wf_close;
                        exact Hh|].
    intros ?. hstep wf_release.
    eapply (hoare_bind _ _ (fun _ => state_wf)).
    + destruct (objectCount_ h =? 0).
      * hstep wf_destroy_header. hstep wf_sys_munmap. apply wf_assert.
      * apply hoare_ret. auto.
    + intros ?. apply hoare_ret. auto.
Qed.

Lemma wf_allocate_new_bucket b k size :
  0 <= size <= pageSize - headerWidth -> size mod 16 = 0 ->
  hoare state_wf (allocate_new_bucket b k size)
    (fun p s => state_wf s
                /\ (CC_MEM_GRANULARITY <= size -> small_offset p)).
Proof.
  intros Hs Hsm. unfold allocate_new_bucket.
  pose proof headerWidth_nonneg as Hhw.
  eapply (hoare_bind _ _ (fun _ => state_wf)).
  { destruct (0 <? k).
    - apply hoare_ret. auto.
    - apply wf_sys_mmap. unfold size_t. apply Z.mod_pos_bound. lia. }
  intros pageStart. hstep wf_assert.
  eapply hoare_bind; [apply wf_construct_header; apply header_wf_new;
                      assumption|].
  intros ?. cbv beta.
  eapply (hoare_weaken _
            (fun s => (state_wf s /\ page_addr (brk s) pageStart)
                      /\ (0 < pageStart /\ pageStart mod pageSize = 0
                          /\ pageStart + pageSize <= MAP_FAILED))).
  2:{ intros s [Hwf Hpa]. split; [split; assumption|].
      destruct Hwf as [(_ & _ & Hb) _ _]. unfold page_addr in Hpa. lia. }
  2:{ intros p s H. exact H. }
  eapply hoare_bind; [apply hoare_frame; apply wf_set_bucket|].
  intros ?. cbv beta. apply hoare_ret. intros s [Hwf (Hp1 & Hp2 & Hp3)].
  split; [exact Hwf|]. intros H16. unfold CC_MEM_GRANULARITY in *.
  rewrite size_t_id by (unfold MAP_FAILED in *; lia).
  unfold small_offset, CC_MEM_GRANULARITY.
  rewrite mod_offset by (try assumption; lia).
  split; [lia|]. apply CC_MEM_ALIGN_mod16.
Qed.

(** Every state [allocate] returns from is well-formed again, whatever the
    requested size; and a request served by the small-object branch with an
    aligned size of at least one granule yields a pointer at a small-object
    offset. *)
Lemma allocate_wf n :
  hoare state_wf (allocate n)
    (fun p s => state_wf s
                /\ (CC_MEM_ALIGN n <= pageSize - headerWidth ->
                    CC_MEM_GRANULARITY <= CC_MEM_ALIGN n -> small_offset p)).
Proof.
  unfold allocate.
  eapply hoare_bind; [apply wf_get_bucket|]. intros bucket. cbv beta.
  apply hoare_pure_r. intros Hb.
  pose proof (CC_MEM_ALIGN_range n) as Hsz.
  pose proof (CC_MEM_ALIGN_mod16 n) as Hsm.
  set (size := CC_MEM_ALIGN n) in *. rewrite small_limit.
  destruct (Z.leb_spec size (pageSize - headerWidth)) as [Hsmall|Hbig].
  - eapply (hoare_bind _ _
              (fun r s => state_wf s
                          /\ match r with
                             | inl p => CC_MEM_GRANULARITY <= size ->
                                        small_offset p
                             | inr _ => True
                             end)).
    + destruct (Z.eqb_spec bucket 0) as [->|Hne]; cbn [negb].
      * apply hoare_ret. auto.
      * destruct Hb as [?|(H1 & H2 & H3)]; [contradiction|].
        apply wf_allocate_in_bucket; try assumption; lia.
    + intros [p|k].
      * apply hoare_ret. intros s [Hwf Hp]. auto.
      * eapply hoare_weaken;
          [apply (wf_allocate_new_bucket bucket k size); try assumption; lia
          | |].
        -- intros s [Hwf _]. exact Hwf.
        -- intros p s [Hwf Hp]. auto.
  - destruct (Z.leb_spec size pageSize).
    + hstep (wf_sys_mmap pageSize ltac:(lia)). hstep wf_assert.
      apply hoare_ret. intros s Hwf. split; [exact Hwf|]. lia.
    + eapply hoare_bind.
      { apply wf_sys_mmap. unfold size_t. apply Z.mod_pos_bound. lia. }
      intros ?. hstep wf_assert. hstep wf_store_u32.
      apply hoare_ret. intros s Hwf. split; [exact Hwf|]. lia.
Qed.

(** Every state [free] returns from is well-formed again, whatever the
    pointer. *)
Lemma free_wf data : hoare state_wf (free data) (fun _ => state_wf).
Proof.
  unfold free.
  destruct (prefixWidth <? uint32 (data mod pageSize)).
  - hstep wf_acquire.
    eapply hoare_bind; [apply wf_load_header|]. intros h. cbv beta.
    apply hoare_pure_r. intros Hh.
    eapply hoare_bind;
      [apply wf_store_header; apply header_wf_set_count; exact Hh|].
    intros ?. hstep wf_release.
    destruct ((uint16 (objectCount_ h - 1) =? 0) && negb (open_ h)).
    + hstep wf_destroy_header. hstep wf_sys_munmap. apply wf_assert.
    + apply hoare_ret. auto.
  - destruct (uint32 (data mod pageSize) =? 0).
    + hstep wf_sys_munmap. apply wf_assert.
    + destruct (uint32 (data mod pageSize) =? prefixWidth).
      * hstep wf_load_u32. hstep wf_sys_munmap. apply wf_assert.
      * apply hoare_ret. auto.
Qed.



(** C8 (as the code has it).  A pointer whose offset in its page lies
    strictly between 0 and [prefixWidth] matches none of the three branches
    of [free]: the call returns normally and leaves the state as it was,
    events included, in debug and in release builds alike.  No assertion is
    checked on this path. *)
Theorem free_stray_offset_is_noop (s : State) (data : Z) :
  pageSize < 2 ^ 32 ->
  0 < data mod pageSize < prefixWidth ->
  free data s = Done tt s.
Proof using pageSize_pos.
  clear pageSize_u16 headerWidth_le. intros Hps Hoff. unfold free.
  pose proof (Z.mod_pos_bound data pageSize pageSize_pos).
  rewrite uint32_id by lia.
  destruct (Z.ltb_spec prefixWidth (data mod pageSize)); [lia|].
  destruct (Z.eqb_spec (data mod pageSize) 0); [lia|].
  destruct (Z.eqb_spec (data mod pageSize) prefixWidth); [lia|].
  reflexivity.
Qed.

(** ** Direct and large allocations *)

Hypothesis pageSize_gran : pageSize mod CC_MEM_GRANULARITY = 0.

Lemma map_pages_one addr (m : gmap Z PageHead) :
  map_pages addr 1 m = <[addr := Raw]> m.
Proof. unfold map_pages. rewrite page_range_one. reflexivity. Qed.

Lemma CC_MEM_ALIGN_le_page n :
  0 <= n <= pageSize -> CC_MEM_ALIGN n <= pageSize.
Proof.
  intros Hn. destruct (CC_MEM_ALIGN_spec n ltac:(lia)) as [Hb Hm].
  unfold CC_MEM_GRANULARITY in *.
  apply Z.mod_divide in Hm; [|lia]. destruct Hm as [k Hk].
  pose proof pageSize_gran as Hg. apply Z.mod_divide in Hg; [|lia].
  destruct Hg as [j Hj]. lia.
Qed.

Lemma direct_range n :
  0 <= sizeofBucketHeader <= pageSize ->
  pageSize - sizeofBucketHeader < n <= pageSize ->
  pageSize - headerWidth < CC_MEM_ALIGN n <= pageSize.
Proof.
  intros Hh Hn.
  destruct (CC_MEM_ALIGN_spec sizeofBucketHeader ltac:(lia)) as [Hb _].
  fold headerWidth in Hb.
  destruct (CC_MEM_ALIGN_spec n ltac:(lia)) as [Hb' _].
  split; [lia|]. apply CC_MEM_ALIGN_le_page. lia.
Qed.

Lemma wf_fresh s a x : state_wf s -> pages s !! a = Some x -> a < brk s.
Proof.
  intros [_ [Hk _] _] Hx. destruct (Hk a x Hx) as (_ & _ & H). lia.
Qed.

(** C6.  A request whose aligned size is at most one page but too large
    for a bucket -- in particular every size in
    [(pageSize - sizeof(BucketHeader), pageSize]] -- is served by one [mmap]
    of exactly [pageSize] bytes; the page is handed out as the OS delivered
    it (nothing is written to it, no allocator state changes), so the
    returned pointer is the page-aligned address of a page that was not
    mapped before. *)
Theorem allocate_direct (n : Z) (s : State) :
  state_wf s ->
  pageSize - headerWidth < CC_MEM_ALIGN n <= pageSize
  \/ (0 <= sizeofBucketHeader <= pageSize
      /\ pageSize - sizeofBucketHeader < n <= pageSize) ->
  brk s + pageSize <= MAP_FAILED ->
  exists p s',
    allocate n s = Done p s'
    /\ p mod pageSize = 0
    /\ events_since s s' = [Mmap pageSize p]
    /\ pages s !! p = None
    /\ pages s' = <[p := Raw]> (pages s)
    /\ bucket_ s' = bucket_ s.
Proof.
  intros Hwf Hrange Hroom.
  assert (Hsz : pageSize - headerWidth < CC_MEM_ALIGN n <= pageSize).
  { destruct Hrange as [H|[H1 H2]]; [exact H|]. apply direct_range; auto. }
  pose proof Hwf as [(Hb1 & Hb2 & Hb3) _ _].
  exists (brk s). eexists. split.
  - unfold allocate. rewrite bind_get_bucket. rewrite small_limit.
    destruct (Z.leb_spec (CC_MEM_ALIGN n) (pageSize - headerWidth)); [lia|].
    destruct (Z.leb_spec (CC_MEM_ALIGN n) pageSize); [|lia].
    unfold bind at 1. rewrite sys_mmap_ok; rewrite ?pageCountOf_one; [|lia..].
    destruct (Z.eqb_spec (brk s) MAP_FAILED); [lia|]. cbn [negb].
    rewrite bind_assert_true. unfold ret. rewrite map_pages_one. reflexivity.
  - proj. repeat split; try assumption; try reflexivity.
    + apply events_since_app. reflexivity.
    + destruct (pages s !! brk s) as [x|] eqn:Hx; [|reflexivity].
      pose proof (wf_fresh s (brk s) x Hwf Hx). lia.
Qed.

Lemma ceil_div x :
  0 <= x ->
  x / pageSize + (if 0 <? x mod pageSize then 1 else 0) = pageCountOf x.
Proof.
  intros Hx. unfold pageCountOf.
  pose proof (Z.div_mod x pageSize ltac:(lia)) as Hdm.
  pose proof (Z.mod_pos_bound x pageSize pageSize_pos) as Hr.
  destruct (Z.ltb_spec 0 (x mod pageSize)).
  - apply Z.div_unique with (r := x mod pageSize - 1); lia.
  - apply Z.div_unique with (r := pageSize - 1); lia.
Qed.

Lemma pageCountOf_covers x :
  0 <= x ->
  x <= pageCountOf x * pageSize /\ (pageCountOf x - 1) * pageSize < x.
Proof.
  intros Hx. rewrite <- ceil_div by exact Hx.
  pose proof (Z.div_mod x pageSize ltac:(lia)) as Hdm.
  pose proof (Z.mod_pos_bound x pageSize pageSize_pos) as Hr.
  destruct (Z.ltb_spec 0 (x mod pageSize)); nia.
Qed.

Lemma unmap_map_fresh addr n x (m : gmap Z PageHead) :
  0 < n ->
  (forall a y, m !! a = Some y -> a < addr) ->
  unmap_pages addr n (<[addr := x]> (map_pages addr n m)) = m.
Proof.
  intros Hn Hfresh. apply map_eq. intros a.
  rewrite lookup_unmap_pages.
  destruct (decide (a ∈ page_range addr n)) as [Hin|Hout].
  - apply elem_of_page_range in Hin as (i & Hi & ->).
    destruct (m !! (addr + i * pageSize)) as [y|] eqn:Hy; [|reflexivity].
    apply Hfresh in Hy. nia.
  - assert (a <> addr).
    { intros ->. apply Hout. apply elem_of_page_range. exists 0. lia. }
    rewrite lookup_insert_ne by congruence.
    rewrite lookup_map_pages.
    destruct (decide (a ∈ page_range addr n)); [contradiction|reflexivity].
Qed.

(** C5 (as the code has it).  For a request larger than a page, [allocate]
    first rounds the size up to the granularity, then adds the prefix width,
    maps in one call the least number of pages covering that sum, stores the
    page count at the start of the region and returns the address just
    behind the prefix.  [free] on that pointer reads the same count back and
    unmaps exactly those pages in one call, which restores the page table of
    before the allocation. *)
Theorem allocate_large_roundtrip (n : Z) (s : State) :
  let count := pageCountOf (CC_MEM_ALIGN n + prefixWidth) in
  state_wf s ->
  prefixWidth < pageSize ->
  pageSize < n <= 2 ^ 64 - 16 ->
  count < 2 ^ 32 ->
  brk s + count * pageSize <= MAP_FAILED ->
  exists s1 s2,
    allocate n s = Done (brk s + prefixWidth) s1
    /\ events_since s s1 = [Mmap (count * pageSize) (brk s)]
    /\ pages s1 = <[brk s := Prefix count]> (map_pages (brk s) count (pages s))
    /\ CC_MEM_ALIGN n + prefixWidth <= count * pageSize
    /\ (count - 1) * pageSize < CC_MEM_ALIGN n + prefixWidth
    /\ free (brk s + prefixWidth) s1 = Done tt s2
    /\ events_since s1 s2 = [Munmap (brk s) (count * pageSize) 0]
    /\ pages s2 = pages s.
Proof.
  intros count Hwf H4 Hn Hc32 Hroom.
  pose proof Hwf as [(Hb1 & Hb2 & Hb3) _ _].
  destruct (CC_MEM_ALIGN_spec n ltac:(lia)) as [Hal Hm].
  pose proof headerWidth_nonneg as Hhw.
  unfold prefixWidth in *.
  assert (Hal64 : CC_MEM_ALIGN n <= 2 ^ 64 - 16).
  { apply Z.mod_divide in Hm; [|lia]. destruct Hm as [k Hk]. lia. }
  destruct (pageCountOf_covers (CC_MEM_ALIGN n + 4) ltac:(lia))
    as [Hcov Hmin]. fold count in Hcov, Hmin.
  assert (Hc1 : 1 <= count) by nia.
  assert (Hrun : allocate n s
                 = Done (brk s + 4)
                     (mkState (<[brk s := Prefix count]>
                                 (map_pages (brk s) count (pages s)))
                        (brk s + count * pageSize) (bucket_ s)
                        (trace s ++ [Mmap (count * pageSize) (brk s)]))).
  { unfold allocate. rewrite bind_get_bucket. rewrite small_limit.
    destruct (Z.leb_spec (CC_MEM_ALIGN n) (pageSize - headerWidth)); [lia|].
    destruct (Z.leb_spec (CC_MEM_ALIGN n) pageSize); [lia|].
    unfold prefixWidth. rewrite (size_t_id (CC_MEM_ALIGN n + 4)) by lia.
    rewrite ceil_div by lia. fold count.
    rewrite (uint32_id count) by lia.
    rewrite (size_t_id (count * pageSize)) by (unfold MAP_FAILED in *; nia).
    unfold bind at 1.
    rewrite sys_mmap_ok; rewrite ?pageCountOf_mul; [|nia|lia|lia].
    destruct (Z.eqb_spec (brk s) MAP_FAILED); [lia|]. cbn [negb].
    rewrite bind_assert_true.
    rewrite (bind_store_u32 _ _ Raw).
    2:{ proj. rewrite lookup_map_pages.
        destruct (decide (brk s ∈ page_range (brk s) count)) as [_|Hn'];
          [reflexivity|].
        exfalso. apply Hn'. apply elem_of_page_range. exists 0. lia. }
    proj. unfold ret. rewrite size_t_id by (unfold MAP_FAILED in *; nia).
    reflexivity. }
  set (s1 := mkState (<[brk s := Prefix count]>
                        (map_pages (brk s) count (pages s)))
               (brk s + count * pageSize) (bucket_ s)
               (trace s ++ [Mmap (count * pageSize) (brk s)])) in *.
  assert (Hoff : (brk s + 4) mod pageSize = 4) by (apply mod_offset; lia).
  destruct (free_cases s1 (brk s + 4)) as (_ & _ & Hlarge);
    [lia|unfold MAP_FAILED in *; nia|].
  cbv zeta in Hlarge. unfold prefixWidth in Hlarge.
  replace (brk s + 4 - 4) with (brk s) in Hlarge by lia.
  specialize (Hlarge Hoff count).
  exists s1. eexists. rewrite Hrun. split; [reflexivity|].
  split; [apply events_since_app; reflexivity|].
  split; [reflexivity|]. split; [exact Hcov|]. split; [exact Hmin|].
  split.
  { apply Hlarge;
      [subst s1; proj; apply lookup_insert_eq|lia|
       unfold MAP_FAILED in *; nia]. }
  proj. split; [apply events_since_app; reflexivity|].
  subst s1. proj. apply unmap_map_fresh; [lia|].
  intros a y Hy. eapply wf_fresh; eassumption.
Qed.

(** ** Allocate, then free *)




Lemma lookup_map_pages_first addr n (m : gmap Z PageHead) :
  0 < n -> map_pages addr n m !! addr = Some Raw.
Proof.
  intros Hn. rewrite lookup_map_pages.
  destruct (decide (addr ∈ page_range addr n)) as [_|H]; [reflexivity|].
  exfalso. apply H. apply elem_of_page_range. exists 0. lia.
Qed.



(** ** Bucket life cycle *)

Lemma sys_mmap_cases len s :
  (exists s1,
     sys_mmap len s = Done MAP_FAILED s1
     /\ pages s1 = pages s /\ brk s1 = brk s /\ bucket_ s1 = bucket_ s)
  \/ (brk s <> MAP_FAILED
      /\ sys_mmap len s
         = Done (brk s)
             (mkState (map_pages (brk s) (pageCountOf len) (pages s))
                (brk s + pageCountOf len * pageSize) (bucket_ s)
                (trace s ++ [Mmap len (brk s)]))).
Proof.
  unfold sys_mmap.
  destruct ((len =? 0) || (MAP_FAILED <? brk s + pageCountOf len * pageSize)).
  - left. rewrite Z.eqb_refl. eexists. split; [reflexivity|]. auto.
  - destruct (Z.eqb_spec (brk s) MAP_FAILED) as [He|Hne].
    + left. rewrite He. eexists. split; [reflexivity|]. auto.
    + right. split; [exact Hne|reflexivity].
Qed.

Lemma sys_munmap_cases addr len s :
  exists r m,
    sys_munmap addr len s
    = Done r (mkState m (brk s) (bucket_ s) (trace s ++ [Munmap addr len r]))
    /\ (m = pages s \/ m = unmap_pages addr (pageCountOf len) (pages s)).
Proof.
  unfold sys_munmap.
  destruct (negb (addr mod pageSize =? 0) || (len =? 0)).
  - exists (-1), (pages s). split; [reflexivity|left; reflexivity].
  - exists 0, (unmap_pages addr (pageCountOf len) (pages s)).
    split; [reflexivity|right; reflexivity].
Qed.

Lemma assert_cases c s :
  CC_MEM_ASSERT c s = Done tt s
  \/ (c = false /\ debug = true /\ CC_MEM_ASSERT c s = Aborted s).
Proof.
  unfold CC_MEM_ASSERT. destruct debug, c; cbn; auto.
Qed.

Lemma allocate_in_bucket_inv b size s r s' :
  b mod pageSize = 0 ->
  allocate_in_bucket b size s = Done r s' ->
  exists h,
    pages s !! b = Some (Header h)
    /\ ((size <= size_t (pageSize - bytesDirty_ h)
         /\ r = inl (size_t (b + bytesDirty_ h))
         /\ s' = mkState
                   (<[b := Header (mkHeader (preallocCount_ h)
                                     (uint16 (bytesDirty_ h + size))
                                     (uint16 (objectCount_ h + 1))
                                     (open_ h))]> (pages s))
                   (brk s) (bucket_ s) (trace s ++ [Acquire b; Release b]))
        \/ (size_t (pageSize - bytesDirty_ h) < size
            /\ r = inr (preallocCount_ h)
            /\ s' = mkState (closed_pages b h (pages s)) (brk s) (bucket_ s)
                      (trace s ++ close_events b h))).
Proof.
  intros Hb E.
  destruct (pages s !! b) as [[|h|]|] eqn:Hl;
    try (unfold allocate_in_bucket, bind, acquire in E; rewrite Hl in E;
         discriminate E).
  exists h. split; [reflexivity|].
  destruct (Z.le_gt_cases size (size_t (pageSize - bytesDirty_ h)))
    as [Hfit|Hfull].
  - left. rewrite (allocate_in_bucket_fits b size h s Hl Hfit) in E.
    inversion E. auto.
  - right. rewrite (allocate_in_bucket_full b size h s Hl Hfull Hb) in E.
    inversion E. auto.
Qed.

Lemma allocate_new_bucket_inv b k size s p s' :
  pages s !! MAP_FAILED = None ->
  allocate_new_bucket b k size s = Done p s' ->
  exists p0 m,
    s' = mkState
           (<[p0 := Header
                      (mkHeader
                         (uint16 (if 0 <? k then k - 1
                                  else CC_MEM_PAGE_PREALLOC - 1))
                         (uint16 (headerWidth + size)) 1 true)]> m)
           (brk s') p0 (trace s')
    /\ ((0 < k /\ p0 = size_t (b + pageSize) /\ m = pages s)
        \/ (p0 = brk s
            /\ m = map_pages (brk s)
                     (pageCountOf (size_t (pageSize * CC_MEM_PAGE_PREALLOC)))
                     (pages s))).
Proof.
  intros Hnone E. unfold allocate_new_bucket in E.
  destruct (Z.ltb_spec 0 k) as [Hk|Hk].
  - rewrite bind_ret in E.
    destruct (Z.eqb_spec (size_t (b + pageSize)) MAP_FAILED) as [He|Hne].
    + rewrite He in E.
      destruct (assert_cases (negb true) s) as [Ha|(_ & _ & Ha)];
        unfold bind at 1 in E; rewrite Ha in E; [|discriminate E].
      unfold bind, construct_header in E. rewrite Hnone in E. discriminate E.
    + cbn [negb] in E. rewrite bind_assert_true in E.
      unfold bind at 1, construct_header in E.
      destruct (pages s !! size_t (b + pageSize)) as [x|] eqn:Hx;
        [|discriminate E].
      rewrite bind_set_bucket in E. inversion E; subst. proj.
      eexists. eexists. split; [reflexivity|]. left. auto.
  - unfold bind at 1 in E.
    destruct (sys_mmap_cases (size_t (pageSize * CC_MEM_PAGE_PREALLOC)) s)
      as [(s1 & Hm & Hp1 & _)|[Hne Hm]]; rewrite Hm in E.
    + rewrite Z.eqb_refl in E.
      destruct (assert_cases (negb true) s1) as [Ha|(_ & _ & Ha)];
        unfold bind at 1 in E; rewrite Ha in E; [|discriminate E].
      unfold bind, construct_header in E. rewrite Hp1, Hnone in E.
      discriminate E.
    + destruct (Z.eqb_spec (brk s) MAP_FAILED); [contradiction|].
      cbn [negb] in E. rewrite bind_assert_true in E.
      unfold bind at 1, construct_header in E.
      cbn [pages brk bucket_ trace] in E.
      destruct (map_pages (brk s)
                  (pageCountOf (size_t (pageSize * CC_MEM_PAGE_PREALLOC)))
                  (pages s) !! brk s) as [x|] eqn:Hx;
        [|discriminate E].
      rewrite bind_set_bucket in E. inversion E; subst. proj.
      eexists. eexists. split; [reflexivity|]. right. auto.
Qed.

Lemma headers_from_life s s' :
  headers_from s s' -> life_inv s' /\ bytesDirty_mono s s'.
Proof.
  intros [_ H]. split; [split|].
  - intros a h' Hh.
    destruct (H a h' Hh) as [(h & _ & _ & Hal & _)|(_ & Ho & _)];
      [exact Hal|].
    intros Hc. congruence.
  - intros a h' Hh.
    destruct (H a h' Hh) as [(h & _ & _ & _ & Hle & _)|(-> & _)]; lia.
  - intros h' Hh.
    destruct (H _ h' Hh) as [(h & _ & _ & _ & _ & Ho)|(_ & Ho & _)]; auto.
  - intros a h0 h' H0 Hh.
    destruct (H a h' Hh) as [(h & Hs & Hle & _)|(_ & _ & _ & Hnew)].
    + rewrite H0 in Hs. inversion Hs; subst. exact Hle.
    + specialize (Hnew a h0 H0). lia.
Qed.

Lemma headers_from_subset s s' :
  life_inv s -> bucket_ s' = bucket_ s ->
  (forall a h, pages s' !! a = Some (Header h) ->
               pages s !! a = Some (Header h)) ->
  headers_from s s'.
Proof.
  intros [Hal Hbe Hop] Hb Hsub. split; [lia|]. intros a h' Hh.
  left. exists h'.
  specialize (Hsub a h' Hh). rewrite Hb.
  split; [exact Hsub|]. split; [lia|]. split; [eauto|].
  split; [eauto|]. intros ->. eauto.
Qed.

Lemma headers_from_update s b h h' brk' tr' :
  life_inv s -> pages s !! b = Some (Header h) ->
  bytesDirty_ h <= bytesDirty_ h' -> bucket_alive h' ->
  (b = bucket_ s -> open_ h' = true) ->
  headers_from s
    (mkState (<[b := Header h']> (pages s)) brk' (bucket_ s) tr').
Proof.
  intros [Hal Hbe Hop] Hh Hle Ha Ho. split; [cbn; lia|].
  intros a h1 H1. proj. cbn [pages] in H1.
  left. destruct (decide (a = b)) as [->|Hne].
  - rewrite lookup_insert_eq in H1. inversion H1; subst. exists h.
    repeat split; eauto.
  - rewrite lookup_insert_ne in H1 by congruence. exists h1.
    repeat split; eauto; try lia. intros ->. eauto.
Qed.

Lemma headers_from_new s m p0 hn brk' tr' :
  open_ hn = true -> bucket_ s < p0 ->
  (forall b h, pages s !! b = Some (Header h) -> b < p0) ->
  (forall a h', m !! a = Some (Header h') ->
     exists h, pages s !! a = Some (Header h)
               /\ bytesDirty_ h <= bytesDirty_ h' /\ bucket_alive h') ->
  headers_from s (mkState (<[p0 := Header hn]> m) brk' p0 tr').
Proof.
  intros Ho Hlt Hnew Hm. split; [cbn; lia|].
  intros a h1 H1. proj. cbn [pages] in H1.
  destruct (decide (a = p0)) as [->|Hne].
  - rewrite lookup_insert_eq in H1. inversion H1; subst. right. auto.
  - rewrite lookup_insert_ne in H1 by congruence. left.
    destruct (Hm a h1 H1) as (h & Hs & Hle & Hal). exists h.
    pose proof (Hnew a h Hs). repeat split; auto; lia.
Qed.

Lemma closed_pages_headers s b h a h' :
  life_inv s -> pages s !! b = Some (Header h) ->
  closed_pages b h (pages s) !! a = Some (Header h') ->
  exists h0, pages s !! a = Some (Header h0)
             /\ bytesDirty_ h0 <= bytesDirty_ h' /\ bucket_alive h'.
Proof.
  intros [Hal _ _] Hh Hc. unfold closed_pages in Hc.
  destruct (Z.eqb_spec (objectCount_ h) 0) as [Hz|Hnz].
  - apply lookup_delete_Some in Hc as [_ Hc]. exists h'.
    split; [exact Hc|]. split; [lia|eauto].
  - destruct (decide (a = b)) as [->|Hne].
    + rewrite lookup_insert_eq in Hc. inversion Hc; subst. exists h.
      split; [exact Hh|]. split; [cbn; lia|]. intros _. exact Hnz.
    + rewrite lookup_insert_ne in Hc by congruence. exists h'.
      split; [exact Hc|]. split; [lia|eauto].
Qed.

Lemma map_pages_headers addr n (m : gmap Z PageHead) a h :
  map_pages addr n m !! a = Some (Header h) -> m !! a = Some (Header h).
Proof.
  rewrite lookup_map_pages.
  destruct (decide (a ∈ page_range addr n)); [discriminate|auto].
Qed.

Lemma unmap_pages_headers addr n (m : gmap Z PageHead) a h :
  unmap_pages addr n m !! a = Some (Header h) -> m !! a = Some (Header h).
Proof.
  rewrite lookup_unmap_pages.
  destruct (decide (a ∈ page_range addr n)); [discriminate|auto].
Qed.

Lemma munmap_assert_inv addr len s s' :
  (r <- sys_munmap addr len ;; CC_MEM_ASSERT (r =? 0)) s = Done tt s' ->
  bucket_ s' = bucket_ s
  /\ forall a h, pages s' !! a = Some (Header h) ->
                 pages s !! a = Some (Header h).
Proof.
  intros E. unfold bind in E.
  destruct (sys_munmap_cases addr len s) as (r & m & Hm & Hcases).
  rewrite Hm in E.
  match type of E with
  | CC_MEM_ASSERT ?c ?s1 = _ =>
      destruct (assert_cases c s1) as [Ha|(_ & _ & Ha)]; rewrite Ha in E;
        [|discriminate E]
  end.
  inversion E; subst. proj. split; [reflexivity|].
  intros a h Hh. destruct Hcases as [->| ->]; [exact Hh|].
  eapply unmap_pages_headers. exact Hh.
Qed.

Lemma free_headers_from data s s' :
  life_inv s -> free data s = Done tt s' -> headers_from s s'.
Proof.
  intros Hlife E. unfold free in E.
  set (offset := uint32 (data mod pageSize)) in E.
  destruct (prefixWidth <? offset).
  - set (b := size_t (data - offset)) in E.
    destruct (pages s !! b) as [[|h|]|] eqn:Hl;
      try (unfold bind, acquire in E; rewrite Hl in E; discriminate E).
    rewrite (bind_acquire b h) in E by exact Hl.
    rewrite (bind_load_header b h) in E by exact Hl.
    rewrite (bind_store_header b _ h) in E by exact Hl.
    erewrite bind_release in E by (proj; apply lookup_insert_eq).
    cbn [pages brk bucket_ trace] in E.
    destruct ((uint16 (objectCount_ h - 1) =? 0) && negb (open_ h)) eqn:Hd.
    + erewrite bind_destroy_header in E by (proj; apply lookup_insert_eq).
      cbn [pages brk bucket_ trace] in E.
      apply munmap_assert_inv in E as [Hb Hsub]. cbn in Hb.
      apply headers_from_subset; [exact Hlife|exact Hb|].
      intros a h1 H1. specialize (Hsub a h1 H1). cbn [pages] in Hsub.
      rewrite insert_insert_eq in Hsub.
      destruct (decide (a = b)) as [->|Hne].
      * rewrite lookup_insert_eq in Hsub. discriminate Hsub.
      * rewrite lookup_insert_ne in Hsub by congruence. exact Hsub.
    + unfold ret in E. inversion E; subst.
      apply (headers_from_update s b h); try assumption; cbn.
      * lia.
      * unfold bucket_alive. cbn. intros Hc Hz.
        rewrite Hc in Hd. cbn [negb] in Hd. rewrite Bool.andb_true_r in Hd.
        apply Z.eqb_neq in Hd. contradiction.
      * intros ->. destruct Hlife as [_ _ Hop]. eauto.
  - destruct (offset =? 0).
    + apply munmap_assert_inv in E as [Hb Hsub].
      apply headers_from_subset; assumption.
    + destruct (offset =? prefixWidth).
      * set (pageStart := size_t (data - prefixWidth)) in E.
        unfold bind at 1, load_u32 in E.
        destruct (pages s !! pageStart) as [[|h|n]|]; try discriminate E.
        apply munmap_assert_inv in E as [Hb Hsub].
        apply headers_from_subset; assumption.
      * unfold ret in E. inversion E; subst.
        apply headers_from_subset; auto.
Qed.

Lemma sys_mmap_inv len s r s1 :
  sys_mmap len s = Done r s1 ->
  bucket_ s1 = bucket_ s
  /\ forall a h, pages s1 !! a = Some (Header h) ->
                 pages s !! a = Some (Header h).
Proof.
  intros E.
  destruct (sys_mmap_cases len s) as [(s2 & Hm & Hp & _ & Hb)|[_ Hm]];
    rewrite Hm in E; inversion E; subst.
  - split; [exact Hb|]. rewrite Hp. auto.
  - proj. split; [reflexivity|]. intros a h. apply map_pages_headers.
Qed.

Lemma assert_inv {B} c (k : unit -> M B) s r s' :
  bind (CC_MEM_ASSERT c) k s = Done r s' -> k tt s = Done r s'.
Proof.
  unfold bind. destruct (assert_cases c s) as [Ha|(_ & _ & Ha)];
    rewrite Ha; [auto|discriminate].
Qed.

Lemma wf_no_map_failed s : state_wf s -> pages s !! MAP_FAILED = None.
Proof.
  intros Hwf. destruct (pages s !! MAP_FAILED) as [x|] eqn:Hx; [|reflexivity].
  pose proof (wf_fresh s _ x Hwf Hx). destruct Hwf as [(_ & _ & Hb) _ _]. lia.
Qed.

Lemma allocate_headers_from n s p s' :
  state_wf s -> life_inv s -> allocate n s = Done p s' -> headers_from s s'.
Proof.
  intros Hwf Hlife E. unfold allocate in E. rewrite bind_get_bucket in E.
  pose proof (CC_MEM_ALIGN_range n) as Hsz.
  set (size := CC_MEM_ALIGN n) in *. rewrite small_limit in E.
  pose proof Hwf as [(Hb1 & Hb2 & Hb3) [Hkeys Hhdrs] Hbk].
  pose proof Hlife as [Hal Hbe Hop].
  pose proof headerWidth_nonneg as Hhw.
  destruct (Z.leb_spec size (pageSize - headerWidth)) as [Hsmall|Hbig].
  - destruct (Z.eqb_spec (bucket_ s) 0) as [H0|Hne]; cbn [negb] in E.
    + rewrite bind_ret in E.
      apply allocate_new_bucket_inv in E; [|apply wf_no_map_failed; exact Hwf].
      destruct E as (p0 & m & -> & [(Hk & _)|(-> & ->)]); [lia|].
      apply headers_from_new; [reflexivity|lia| |].
      * intros b h Hh. eapply wf_fresh; eassumption.
      * intros a h' Hh. apply map_pages_headers in Hh. exists h'.
        split; [exact Hh|]. split; [lia|eauto].
    + destruct Hbk as [?|(Hp1 & Hp2 & Hp3)]; [contradiction|].
      unfold bind at 1 in E.
      destruct (allocate_in_bucket (bucket_ s) size s) as [r s1| |] eqn:Ein;
        try discriminate E.
      apply allocate_in_bucket_inv in Ein; [|exact Hp2].
      destruct Ein as (h & Hh & [(Hfit & -> & ->)|(Hfull & -> & ->)]).
      * unfold ret in E. inversion E; subst.
        destruct (Hhdrs _ h Hh) as ((Hbd1 & Hbd2) & _).
        rewrite size_t_id in Hfit by lia.
        apply (headers_from_update s (bucket_ s) h); try assumption; cbn.
        -- rewrite uint16_id by lia. lia.
        -- intros Hc. rewrite (Hop h Hh) in Hc. discriminate Hc.
        -- intros _. eauto.
      * apply allocate_new_bucket_inv in E.
        2:{ proj. rewrite lookup_closed_pages_ne by lia.
            apply wf_no_map_failed. exact Hwf. }
        destruct E as (p0 & m & -> & [(Hk & -> & ->)|(-> & ->)]); proj.
        -- rewrite (size_t_id (bucket_ s + pageSize))
             by (unfold MAP_FAILED in *; lia).
           apply headers_from_new; [reflexivity|lia| |].
           ++ intros b h0 H0. specialize (Hbe b h0 H0). lia.
           ++ intros a h' Hc. eapply closed_pages_headers; eassumption.
        -- apply headers_from_new; [reflexivity|unfold page_addr; lia| |].
           ++ intros b h0 H0. eapply wf_fresh; eassumption.
           ++ intros a h' Hc. apply map_pages_headers in Hc.
              eapply closed_pages_headers; eassumption.
  - destruct (size <=? pageSize).
    + unfold bind at 1 in E.
      destruct (sys_mmap pageSize s) as [r s1| |] eqn:Em; try discriminate E.
      apply sys_mmap_inv in Em as [Hb Hsub].
      apply assert_inv in E. unfold ret in E. inversion E; subst.
      apply headers_from_subset; assumption.
    + unfold bind at 1 in E.
      match type of E with
      | match sys_mmap ?len s with _ => _ end = _ =>
          destruct (sys_mmap len s) as [r s1| |] eqn:Em; try discriminate E
      end.
      apply sys_mmap_inv in Em as [Hb Hsub].
      apply assert_inv in E. unfold bind at 1, store_u32 in E.
      destruct (pages s1 !! r) as [x|] eqn:Hx; [|discriminate E].
      unfold ret in E. inversion E; subst.
      apply headers_from_subset; [exact Hlife|exact Hb|].
      intros a h Hh. cbn [pages set_pages] in Hh.
      apply lookup_insert_Some in Hh as [[_ Hh]|[_ Hh]];
        [discriminate Hh|auto].
Qed.

Lemma life_inv_init : life_inv init.
Proof.
  split; cbn; intros; rewrite lookup_empty in *; discriminate.
Qed.

Lemma returns_headers_from c s s' :
  state_wf s -> life_inv s -> returns c s s' ->
  state_wf s' /\ headers_from s s'.
Proof.
  intros Hwf Hlife Hr. destruct c as [n|data]; unfold returns in Hr.
  - destruct Hr as [p E]. split.
    + exact (proj1 (allocate_wf n s p s' Hwf E)).
    + eapply allocate_headers_from; eassumption.
  - split.
    + exact (free_wf data s tt s' Hwf Hr).
    + eapply free_headers_from; eassumption.
Qed.

Lemma reachable_inv s : reachable s -> state_wf s /\ life_inv s.
Proof.
  induction 1 as [|c s s' _ [Hwf Hlife] Hr].
  - split; [apply state_wf_init|apply life_inv_init].
  - destruct (returns_headers_from c s s' Hwf Hlife Hr) as [Hwf' Hfrom].
    split; [exact Hwf'|]. apply headers_from_life in Hfrom as [H _]. exact H.
Qed.

Lemma run_inv s s' :
  state_wf s -> life_inv s -> run s s' ->
  state_wf s' /\ life_inv s' /\ bucket_ s <= bucket_ s'
  /\ bytesDirty_mono s s'.
Proof.
  intros Hwf Hlife Hrun.
  induction Hrun as [s|c s s1 s2 _ IH Hr].
  - split; [exact Hwf|]. split; [exact Hlife|]. split; [lia|].
    intros a h0 h H0 H1. rewrite H0 in H1. inversion H1. lia.
  - destruct (IH Hwf Hlife) as (Hwf1 & Hlife1 & Hle & Hmono).
    destruct (returns_headers_from c s1 s2 Hwf1 Hlife1 Hr)
      as [Hwf2 [Hb Hfrom]].
    pose proof (headers_from_life s1 s2 (conj Hb Hfrom)) as [Hlife2 _].
    split; [exact Hwf2|]. split; [exact Hlife2|]. split; [lia|].
    intros a h0 h2 H0 H2.
    destruct (Hfrom a h2 H2) as [(h1 & H1 & Hle1 & _)|(-> & _ & Hlt & _)].
    + specialize (Hmono a h0 h1 H0 H1). lia.
    + destruct Hlife as [_ Hbelow _]. specialize (Hbelow _ h0 H0). lia.
Qed.

(** X1.  Whatever sizes and pointers the calls are given, as long as they
    return: in every state reached from the empty state a mapped bucket has
    its dirty bytes between the header width and the page size, a live count
    that is not negative, and is open or holds a live object -- a closed
    bucket whose count is zero is never left mapped; and over any further
    sequence of calls a bucket that is still mapped has not lost dirty
    bytes. *)
Lemma bucket_life_cycle (s s' : State) :
  reachable s -> run s s' ->
  (forall a h, pages s' !! a = Some (Header h) ->
     headerWidth <= bytesDirty_ h <= pageSize
     /\ 0 <= objectCount_ h
     /\ ~ (objectCount_ h = 0 /\ open_ h = false))
  /\ bytesDirty_mono s s'.
Proof.
  intros Hreach Hrun. apply reachable_inv in Hreach as [Hwf Hlife].
  destruct (run_inv s s' Hwf Hlife Hrun) as (Hwf' & Hlife' & _ & Hmono).
  split; [|exact Hmono]. intros a h Hh.
  destruct Hwf' as [_ [_ Hhdr] _]. destruct (Hhdr a h Hh) as (Hbd & _ & Hc & _).
  destruct Hlife' as [Hal _ _]. specialize (Hal a h Hh).
  split; [exact Hbd|]. split; [lia|]. intros [Hz Hcl]. exact (Hal Hcl Hz).
Qed.

(** ** Further properties of the two entry points *)

(** X2. On a platform whose page size is below 65536 (the section's
    [pageSize_u16]), structural well-formedness is an invariant of the
    allocator: every call that returns, [allocate] with any size and [free]
    with any pointer, leaves mapped pages page-aligned and below [brk], every
    bucket header with [bytesDirty_] between the header width and the page
    size on a multiple of the granularity and its counters in the [uint16_t]
    range, and the context's bucket pointer null or a page address. *)
Theorem call_keeps_state_wf (c : Call) (s s' : State) :
  state_wf s -> returns c s s' -> state_wf s'.
Proof.
  intros Hwf Hr. destruct c as [n|data]; unfold returns in Hr.
  - destruct Hr as [p E]. exact (proj1 (allocate_wf n s p s' Hwf E)).
  - exact (free_wf data s tt s' Hwf Hr).
Qed.

(** X3.  Freeing an object of a bucket whose live count is already 0 (a
    second [free] of the last object, say) is not detected: the 16-bit count
    wraps to 65535, nothing is unmapped, no assertion fires, and the bucket
    can no longer reach a count of zero by the [free]s of its real objects. *)
Theorem free_underflow_wraps (s : State) (data : Z) (h : BucketHeader) :
  pageSize < 2 ^ 32 -> 0 <= data < 2 ^ 64 ->
  let offset := data mod pageSize in
  let b := data - offset in
  prefixWidth < offset ->
  pages s !! b = Some (Header h) ->
  objectCount_ h = 0 ->
  free data s
  = Done tt
      (mkState
         (<[b := Header (mkHeader (preallocCount_ h) (bytesDirty_ h) 65535
                           (open_ h))]> (pages s))
         (brk s) (bucket_ s) (trace s ++ [Acquire b; Release b])).
Proof.
  intros Hps Hd offset b Hoff Hh Hz.
  destruct (free_cases s data Hps Hd) as (Hbucket & _ & _).
  specialize (Hbucket Hoff h Hh). cbv zeta in Hbucket.
  fold offset in Hbucket. fold b in Hbucket. rewrite Hz in Hbucket.
  change (uint16 (0 - 1)) with 65535 in Hbucket.
  cbn [Z.eqb andb] in Hbucket. exact Hbucket.
Qed.

(** X4.  A request whose aligned size is 0 (size 0, or a size above
    2^64 - 16) takes no room in the bucket: it is handed the address of the
    next free byte and leaves [bytesDirty_] where it was, so the request that
    follows it in the same bucket is handed the very same address. *)
Theorem zero_size_block_is_aliased (n m : Z) (h : BucketHeader) (s : State) :
  let b := bucket_ s in
  CC_MEM_ALIGN n = 0 ->
  CC_MEM_ALIGN m <= size_t (pageSize - headerWidth) ->
  b <> 0 -> 0 <= b -> b + pageSize < 2 ^ 64 ->
  pages s !! b = Some (Header h) ->
  0 <= bytesDirty_ h -> bytesDirty_ h + CC_MEM_ALIGN m <= pageSize ->
  0 <= objectCount_ h < 2 ^ 16 - 2 ->
  exists s1 s2,
    allocate n s = Done (b + bytesDirty_ h) s1
    /\ allocate m s1 = Done (b + bytesDirty_ h) s2
    /\ pages s2
       = <[b := Header (mkHeader (preallocCount_ h)
                          (bytesDirty_ h + CC_MEM_ALIGN m)
                          (objectCount_ h + 2) (open_ h))]> (pages s).
Proof.
  intros b Hn Hm Hb0 Hb Hb64 Hh Hbd Hfit Hc.
  pose proof (CC_MEM_ALIGN_range m) as Hmr.
  pose proof (allocate_fast_eq n h s) as H1. cbv zeta in H1.
  fold b in H1. rewrite Hn in H1.
  specialize (H1 ltac:(unfold size_t; apply Z.mod_pos_bound; lia) Hb0 Hb Hb64
                Hh Hbd ltac:(lia) ltac:(lia)).
  rewrite Z.add_0_r in H1.
  set (s1 := mkState _ _ _ _) in H1.
  pose proof (allocate_fast_eq m
                (mkHeader (preallocCount_ h) (bytesDirty_ h)
                   (objectCount_ h + 1) (open_ h)) s1) as H2.
  cbv zeta in H2. subst s1. cbn [bucket_ pages] in H2.
  cbn [preallocCount_ bytesDirty_ objectCount_ open_] in H2.
  specialize (H2 Hm Hb0 Hb Hb64 ltac:(apply lookup_insert_eq) ltac:(lia)
                ltac:(lia) ltac:(lia)).
  eexists. eexists. split; [exact H1|]. split; [exact H2|]. proj.
  rewrite insert_insert_eq.
  replace (objectCount_ h + 1 + 1) with (objectCount_ h + 2) by lia.
  reflexivity.
Qed.

(** X5.  On a bucket that is exactly full ([bytesDirty_ = pageSize]) a
    request whose aligned size is 0 still passes the fit test: it is counted
    as an object of the bucket but handed [bucket + pageSize], the
    page-aligned base address of the following page, so [free] of that
    pointer takes the direct-page branch and unmaps that following page,
    leaving the bucket's count one too high. *)
Theorem zero_size_on_full_bucket (n : Z) (h : BucketHeader) (s : State) :
  let b := bucket_ s in
  CC_MEM_ALIGN n = 0 ->
  b <> 0 -> 0 <= b -> b mod pageSize = 0 -> b + pageSize < 2 ^ 64 ->
  pages s !! b = Some (Header h) ->
  bytesDirty_ h = pageSize ->
  0 <= objectCount_ h < 2 ^ 16 - 1 ->
  exists s1,
    allocate n s = Done (b + pageSize) s1
    /\ (b + pageSize) mod pageSize = 0
    /\ pages s1
       = <[b := Header (mkHeader (preallocCount_ h) pageSize
                          (objectCount_ h + 1) (open_ h))]> (pages s)
    /\ free (b + pageSize) s1
       = Done tt (mkState (delete (b + pageSize) (pages s1)) (brk s1)
                    (bucket_ s1)
                    (trace s1 ++ [Munmap (b + pageSize) pageSize 0]))
    /\ pages s1 !! b
       = Some (Header (mkHeader (preallocCount_ h) pageSize
                         (objectCount_ h + 1) (open_ h))).
Proof.
  intros b Hn Hb0 Hb Hal Hb64 Hh Hfull Hc.
  pose proof (allocate_fast_eq n h s) as H1. cbv zeta in H1.
  fold b in H1. rewrite Hn, Hfull in H1.
  specialize (H1 ltac:(unfold size_t; apply Z.mod_pos_bound; lia) Hb0 Hb Hb64
                Hh ltac:(lia) ltac:(lia) ltac:(lia)).
  rewrite Z.add_0_r in H1.
  assert (Hmod : (b + pageSize) mod pageSize = 0).
  { replace (b + pageSize) with (b + 1 * pageSize) by lia.
    rewrite Z.mod_add by lia. exact Hal. }
  eexists. split; [exact H1|]. split; [exact Hmod|]. proj.
  split; [reflexivity|]. split.
  - destruct (free_cases
                (mkState
                   (<[b := Header (mkHeader (preallocCount_ h) pageSize
                                     (objectCount_ h + 1) (open_ h))]>
                      (pages s))
                   (brk s) b (trace s ++ [Acquire b; Release b]))
                (b + pageSize)) as (_ & Hdirect & _); [lia|lia|].
    apply Hdirect. exact Hmod.
  - apply lookup_insert_eq.
Qed.

Lemma allocate_direct_eq n s :
  pageSize - headerWidth < CC_MEM_ALIGN n <= pageSize ->
  brk s <> MAP_FAILED -> brk s + pageSize <= MAP_FAILED ->
  allocate n s
  = Done (brk s)
      (mkState (<[brk s := Raw]> (pages s)) (brk s + 1 * pageSize)
         (bucket_ s) (trace s ++ [Mmap pageSize (brk s)])).
Proof.
  intros Hsz Hne Hroom.
  unfold allocate. rewrite bind_get_bucket. rewrite small_limit.
  destruct (Z.leb_spec (CC_MEM_ALIGN n) (pageSize - headerWidth)); [lia|].
  destruct (Z.leb_spec (CC_MEM_ALIGN n) pageSize); [|lia].
  unfold bind at 1. rewrite sys_mmap_ok; rewrite ?pageCountOf_one; [|lia..].
  destruct (Z.eqb_spec (brk s) MAP_FAILED); [lia|]. cbn [negb].
  rewrite bind_assert_true. unfold ret. rewrite map_pages_one. reflexivity.
Qed.

(** X6.  Round trip of a direct allocation: [allocate] of a size that takes
    the single-page branch followed by [free] of the returned pointer issues
    exactly one [mmap] and one [munmap] of [pageSize] bytes at the same
    address and gives back the page table of before; the context's bucket is
    not touched. *)
Theorem allocate_direct_roundtrip (n : Z) (s : State) :
  state_wf s ->
  pageSize - headerWidth < CC_MEM_ALIGN n <= pageSize ->
  brk s + pageSize <= MAP_FAILED ->
  exists p s1 s2,
    allocate n s = Done p s1
    /\ free p s1 = Done tt s2
    /\ pages s2 = pages s
    /\ bucket_ s2 = bucket_ s
    /\ events_since s s2 = [Mmap pageSize p; Munmap p pageSize 0].
Proof.
  intros Hwf Hsz Hroom.
  pose proof Hwf as [(Hb1 & Hb2 & Hb3) _ _].
  pose proof (allocate_direct_eq n s Hsz ltac:(lia) Hroom) as H1.
  set (s1 := mkState _ _ _ _) in H1.
  destruct (free_cases s1 (brk s)) as (_ & Hdirect & _);
    [lia|unfold MAP_FAILED in *; lia|].
  specialize (Hdirect Hb2).
  exists (brk s), s1. eexists. split; [exact H1|]. split; [exact Hdirect|].
  subst s1. proj. split; [|split; [reflexivity|]].
  - apply delete_insert_id.
    destruct (pages s !! brk s) as [x|] eqn:Hx; [|reflexivity].
    pose proof (wf_fresh s (brk s) x Hwf Hx). lia.
  - apply events_since_app. tidy_trace. reflexivity.
Qed.




(** *** [free] never maps memory and never moves the cursor *)

Lemma shrinks_refl s : shrinks_from s s.
Proof.
  split; [reflexivity|]. split; [reflexivity|]. split; [auto|].
  exists []. split; [symmetry; apply app_nil_r|reflexivity].
Qed.

Lemma shrinks_event s0 s e :
  is_mmap e = false -> shrinks_from s0 s ->
  shrinks_from s0 (mkState (pages s) (brk s) (bucket_ s) (trace s ++ [e])).
Proof.
  intros He (Hb & Hk & Hp & l & Hl & Hall).
  split; [exact Hb|]. split; [exact Hk|]. split; [exact Hp|].
  exists (l ++ [e]). cbn [trace]. split.
  - rewrite Hl. symmetry. apply app_assoc.
  - rewrite forallb_app, Hall. cbn. rewrite He. reflexivity.
Qed.

Lemma shrinks_pages s0 s (f : gmap Z PageHead -> gmap Z PageHead) :
  (forall a, pages s !! a = None -> f (pages s) !! a = None) ->
  shrinks_from s0 s -> shrinks_from s0 (set_pages f s).
Proof.
  intros Hf (Hb & Hk & Hp & Hl).
  split; [exact Hb|]. split; [exact Hk|]. split; [|exact Hl].
  intros a Ha. cbn. apply Hf. apply Hp. exact Ha.
Qed.

Lemma insert_keeps_none (m : gmap Z PageHead) b x a :
  is_Some (m !! b) -> m !! a = None -> <[b := x]> m !! a = None.
Proof.
  intros [y Hy] Ha. rewrite lookup_insert_ne; [exact Ha|]. congruence.
Qed.

Lemma shr_acquire s0 b :
  hoare (shrinks_from s0) (acquire b) (fun _ => shrinks_from s0).
Proof.
  intros s a s' H E. unfold acquire in E.
  destruct (pages s !! b) as [[|h|]|]; try discriminate E.
  unfold emit in E. done_inv. apply shrinks_event; auto.
Qed.

Lemma shr_release s0 b :
  hoare (shrinks_from s0) (release b) (fun _ => shrinks_from s0).
Proof.
  intros s a s' H E. unfold release in E.
  destruct (pages s !! b) as [[|h|]|]; try discriminate E.
  unfold emit in E. done_inv. apply shrinks_event; auto.
Qed.

Lemma shr_load_header s0 b :
  hoare (shrinks_from s0) (load_header b) (fun _ => shrinks_from s0).
Proof.
  intros s a s' H E. unfold load_header in E.
  destruct (pages s !! b) as [[|h|]|]; done_inv. exact H.
Qed.

Lemma shr_load_u32 s0 b :
  hoare (shrinks_from s0) (load_u32 b) (fun _ => shrinks_from s0).
Proof.
  intros s a s' H E. unfold load_u32 in E.
  destruct (pages s !! b) as [[|h|]|]; done_inv. exact H.
Qed.

Lemma shr_store_header s0 b h :
  hoare (shrinks_from s0) (store_header b h) (fun _ => shrinks_from s0).
Proof.
  intros s a s' H E. unfold store_header in E.
  destruct (pages s !! b) as [[|h0|]|] eqn:Hl; done_inv.
  apply shrinks_pages; [|exact H].
  intros a' Ha. apply insert_keeps_none; eauto.
Qed.

Lemma shr_destroy_header s0 b :
  hoare (shrinks_from s0) (destroy_header b) (fun _ => shrinks_from s0).
Proof.
  intros s a s' H E. unfold destroy_header in E.
  destruct (pages s !! b) as [[|h0|]|] eqn:Hl; done_inv.
  apply shrinks_pages; [|exact H].
  intros a' Ha. apply insert_keeps_none; eauto.
Qed.

Lemma shr_assert s0 c :
  hoare (shrinks_from s0) (CC_MEM_ASSERT c) (fun _ => shrinks_from s0).
Proof.
  intros s a s' H E. unfold CC_MEM_ASSERT in E.
  destruct (debug && negb c); done_inv. exact H.
Qed.

Lemma shr_sys_munmap s0 addr len :
  hoare (shrinks_from s0) (sys_munmap addr len) (fun _ => shrinks_from s0).
Proof.
  intros s a s' H E. unfold sys_munmap, bind, emit, ret in E.
  destruct (negb (addr mod pageSize =? 0) || (len =? 0));
    cbn in E; done_inv.
  - apply shrinks_event; auto.
  - destruct H as (Hb & Hk & Hp & l & Hl & Hall).
    split; [exact Hb|]. split; [exact Hk|]. split.
    + intros a' Ha. cbn. rewrite lookup_unmap_pages.
      destruct (decide (a' ∈ page_range addr (pageCountOf len))); auto.
    + exists (l ++ [Munmap addr len 0]). cbn. split.
      * rewrite Hl. symmetry. apply app_assoc.
      * rewrite forallb_app, Hall. reflexivity.
Qed.

Lemma shr_free s0 data :
  hoare (shrinks_from s0) (free data) (fun _ => shrinks_from s0).
Proof.
  unfold free.
  destruct (prefixWidth <? uint32 (data mod pageSize)).
  - hstep shr_acquire.
    eapply hoare_bind; [apply shr_load_header|]. intros h. cbv beta.
    hstep shr_store_header. hstep shr_release.
    destruct ((uint16 (objectCount_ h - 1) =? 0) && negb (open_ h)).
    + hstep shr_destroy_header. hstep shr_sys_munmap. apply shr_assert.
    + apply hoare_ret. auto.
  - destruct (uint32 (data mod pageSize) =? 0).
    + hstep shr_sys_munmap. apply shr_assert.
    + destruct (uint32 (data mod pageSize) =? prefixWidth).
      * hstep shr_load_u32. hstep shr_sys_munmap. apply shr_assert.
      * apply hoare_ret. auto.
Qed.

(** X8.  Whatever pointer it is given, a [free] that returns has not moved
    the context's bucket pointer, has not changed [brk], has mapped no page
    that was unmapped before and has issued no [mmap]: it can only unmap. *)
Theorem free_only_unmaps (data : Z) (s s' : State) :
  free data s = Done tt s' ->
  bucket_ s' = bucket_ s
  /\ brk s' = brk s
  /\ (forall a, pages s !! a = None -> pages s' !! a = None)
  /\ forallb (fun e => negb (is_mmap e)) (events_since s s') = true.
Proof.
  intros E.
  destruct (shr_free s data s tt s' (shrinks_refl s) E)
    as (Hb & Hk & Hp & l & Hl & Hall).
  split; [exact Hb|]. split; [exact Hk|]. split; [exact Hp|].
  rewrite (events_since_app s s' l Hl). exact Hall.
Qed.

(** *** No mutex is held across a system call or at return *)

Lemma lock_state_app h l l' :
  lock_state h (l ++ l')
  = match lock_state h l with
    | Some h' => lock_state h' l'
    | None => None
    end.
Proof.
  revert h. induction l as [|e l IH]; intros h; [reflexivity|].
  destruct e, h; cbn; try reflexivity; try apply IH.
  destruct (bucket =? z); [apply IH|reflexivity].
Qed.

Lemma locks_event s0 hd hd' e s :
  lock_state hd [e] = Some hd' ->
  locks_since s0 hd s ->
  locks_since s0 hd'
    (mkState (pages s) (brk s) (bucket_ s) (trace s ++ [e])).
Proof.
  intros He (l & Hl & Hs). exists (l ++ [e]). cbn [trace]. split.
  - rewrite Hl. symmetry. apply app_assoc.
  - rewrite lock_state_app, Hs. exact He.
Qed.

Lemma locks_keep {A} s0 hd (m : M A) :
  keeps_trace m ->
  hoare (locks_since s0 hd) m (fun _ => locks_since s0 hd).
Proof.
  intros Hk s a s' (l & Hl & Hs) E. exists l. split; [|exact Hs].
  rewrite (Hk s a s' E). exact Hl.
Qed.

Lemma kt_ret {A} (a : A) : keeps_trace (ret a).
Proof. intros s a' s' E. unfold ret in E. done_inv. reflexivity. Qed.

Lemma kt_get_bucket : keeps_trace get_bucket.
Proof. intros s a s' E. unfold get_bucket in E. done_inv. reflexivity. Qed.

Lemma kt_set_bucket b : keeps_trace (set_bucket b).
Proof. intros s a s' E. unfold set_bucket in E. done_inv. reflexivity. Qed.

Lemma kt_assert c : keeps_trace (CC_MEM_ASSERT c).
Proof.
  intros s a s' E. unfold CC_MEM_ASSERT in E.
  destruct (debug && negb c); done_inv. reflexivity.
Qed.

Lemma kt_load_header b : keeps_trace (load_header b).
Proof.
  intros s a s' E. unfold load_header in E.
  destruct (pages s !! b) as [[|h|]|]; done_inv. reflexivity.
Qed.

Lemma kt_store_header b h : keeps_trace (store_header b h).
Proof.
  intros s a s' E. unfold store_header in E.
  destruct (pages s !! b) as [[|h0|]|]; done_inv. reflexivity.
Qed.

Lemma kt_construct_header b h : keeps_trace (construct_header b h).
Proof.
  intros s a s' E. unfold construct_header in E.
  destruct (pages s !! b) as [x|]; done_inv. reflexivity.
Qed.

Lemma kt_destroy_header b : keeps_trace (destroy_header b).
Proof.
  intros s a s' E. unfold destroy_header in E.
  destruct (pages s !! b) as [[|h0|]|]; done_inv. reflexivity.
Qed.

Lemma kt_load_u32 b : keeps_trace (load_u32 b).
Proof.
  intros s a s' E. unfold load_u32 in E.
  destruct (pages s !! b) as [[|h|]|]; done_inv. reflexivity.
Qed.

Lemma kt_store_u32 b n : keeps_trace (store_u32 b n).
Proof.
  intros s a s' E. unfold store_u32 in E.
  destruct (pages s !! b) as [x|]; done_inv. reflexivity.
Qed.

Lemma lk_acquire s0 b :
  hoare (locks_since s0 None) (acquire b)
    (fun _ => locks_since s0 (Some b)).
Proof.
  intros s a s' H E. unfold acquire in E.
  destruct (pages s !! b) as [[|h|]|]; try discriminate E.
  unfold emit in E. done_inv. eapply locks_event; [|exact H]. reflexivity.
Qed.

Lemma lk_release s0 b :
  hoare (locks_since s0 (Some b)) (release b)
    (fun _ => locks_since s0 None).
Proof.
  intros s a s' H E. unfold release in E.
  destruct (pages s !! b) as [[|h|]|]; try discriminate E.
  unfold emit in E. done_inv. eapply locks_event; [|exact H].
  cbn. rewrite Z.eqb_refl. reflexivity.
Qed.

Lemma lk_sys_munmap s0 addr len :
  hoare (locks_since s0 None) (sys_munmap addr len)
    (fun _ => locks_since s0 None).
Proof.
  intros s a s' H E. unfold sys_munmap, bind, emit, ret in E.
  destruct (negb (addr mod pageSize =? 0) || (len =? 0));
    cbn in E; done_inv.
  - eapply locks_event; [|exact H]. reflexivity.
  - destruct H as (l & Hl & Hs). exists (l ++ [Munmap addr len 0]). cbn.
    split; [rewrite Hl; symmetry; apply app_assoc|].
    rewrite lock_state_app, Hs. reflexivity.
Qed.

Lemma sys_mmap_trace len s r s' :
  sys_mmap len s = Done r s' -> trace s' = trace s ++ [Mmap len r].
Proof.
  unfold sys_mmap, bind, emit, ret. intros E.
  destruct ((len =? 0)
            || (MAP_FAILED <? brk s + pageCountOf len * pageSize));
    [rewrite Z.eqb_refl in E|destruct (brk s =? MAP_FAILED)];
    cbn in E; inversion E; reflexivity.
Qed.

Lemma lk_sys_mmap s0 len :
  hoare (locks_since s0 None) (sys_mmap len)
    (fun _ => locks_since s0 None).
Proof.
  intros s a s' (l & Hl & Hs) E. apply sys_mmap_trace in E.
  exists (l ++ [Mmap len a]). split.
  - rewrite E, Hl. symmetry. apply app_assoc.
  - rewrite lock_state_app, Hs. reflexivity.
Qed.

Ltac kstep lem :=
  eapply hoare_bind; [apply locks_keep; apply lem|]; intros ?; cbv beta.

Lemma lk_allocate_in_bucket s0 b size :
  hoare (locks_since s0 None) (allocate_in_bucket b size)
    (fun _ => locks_since s0 None).
Proof.
  unfold allocate_in_bucket. hstep lk_acquire.
  eapply hoare_bind; [apply locks_keep; apply kt_load_header|].
  intros h. cbv beta.
  destruct (size <=? size_t (pageSize - bytesDirty_ h)).
  - kstep kt_store_header. hstep lk_release.
    apply locks_keep. apply kt_ret.
  - kstep kt_store_header. hstep lk_release.
    eapply (hoare_bind _ _ (fun _ => locks_since s0 None)).
    + destruct (objectCount_ h =? 0).
      * kstep kt_destroy_header. hstep lk_sys_munmap.
        apply locks_keep. apply kt_assert.
      * apply locks_keep. apply kt_ret.
    + intros ?. apply locks_keep. apply kt_ret.
Qed.

Lemma lk_allocate_new_bucket s0 b k size :
  hoare (locks_since s0 None) (allocate_new_bucket b k size)
    (fun _ => locks_since s0 None).
Proof.
  unfold allocate_new_bucket.
  eapply (hoare_bind _ _ (fun _ => locks_since s0 None)).
  { destruct (0 <? k); [apply locks_keep; apply kt_ret|apply lk_sys_mmap]. }
  intros pageStart. kstep kt_assert. kstep kt_construct_header.
  kstep kt_set_bucket. apply locks_keep. apply kt_ret.
Qed.

Lemma lk_allocate s0 n :
  hoare (locks_since s0 None) (allocate n) (fun _ => locks_since s0 None).
Proof.
  unfold allocate.
  eapply hoare_bind; [apply locks_keep; apply kt_get_bucket|].
  intros bucket. cbv beta.
  destruct (CC_MEM_ALIGN n <=? size_t (pageSize - headerWidth)).
  - eapply (hoare_bind _ _ (fun _ => locks_since s0 None)).
    + destruct (negb (bucket =? 0));
        [apply lk_allocate_in_bucket|apply locks_keep; apply kt_ret].
    + intros [p|k];
        [apply locks_keep; apply kt_ret|apply lk_allocate_new_bucket].
  - destruct (CC_MEM_ALIGN n <=? pageSize).
    + hstep lk_sys_mmap. kstep kt_assert. apply locks_keep. apply kt_ret.
    + hstep lk_sys_mmap. kstep kt_assert. kstep kt_store_u32.
      apply locks_keep. apply kt_ret.
Qed.

Lemma lk_free s0 data :
  hoare (locks_since s0 None) (free data) (fun _ => locks_since s0 None).
Proof.
  unfold free.
  destruct (prefixWidth <? uint32 (data mod pageSize)).
  - hstep lk_acquire.
    eapply hoare_bind; [apply locks_keep; apply kt_load_header|].
    intros h. cbv beta. kstep kt_store_header. hstep lk_release.
    destruct ((uint16 (objectCount_ h - 1) =? 0) && negb (open_ h)).
    + kstep kt_destroy_header. hstep lk_sys_munmap.
      apply locks_keep. apply kt_assert.
    + apply locks_keep. apply kt_ret.
  - destruct (uint32 (data mod pageSize) =? 0).
    + hstep lk_sys_munmap. apply locks_keep. apply kt_assert.
    + destruct (uint32 (data mod pageSize) =? prefixWidth).
      * kstep kt_load_u32. hstep lk_sys_munmap.
        apply locks_keep. apply kt_assert.
      * apply locks_keep. apply kt_ret.
Qed.

(** X9.  Lock discipline of both entry points: in the events of any call
    that returns, a bucket mutex is only acquired when none is held, the
    mutex released is the one held, no [mmap] or [munmap] is issued while a
    mutex is held (the bucket is released before it is unmapped), and no
    mutex is held when the call returns. *)
Theorem calls_respect_lock_discipline (c : Call) (s s' : State) :
  returns c s s' -> lock_state None (events_since s s') = Some None.
Proof.
  intros Hr.
  assert (H0 : locks_since s None s).
  { exists []. split; [symmetry; apply app_nil_r|reflexivity]. }
  assert (H : locks_since s None s').
  { destruct c as [n|data]; unfold returns in Hr.
    - destruct Hr as [p E]. exact (lk_allocate s n s p s' H0 E).
    - exact (lk_free s data s tt s' H0 Hr). }
  destruct H as (l & Hl & Hs). rewrite (events_since_app s s' l Hl).
  exact Hs.
Qed.

(** *** Where a small block lies *)

Lemma allocate_new_bucket_ptr_triple b k size :
  hoare (fun _ => True) (allocate_new_bucket b k size)
    (fun p s' => p = size_t (bucket_ s' + headerWidth)).
Proof.
  unfold allocate_new_bucket.
  eapply (hoare_bind _ _ (fun _ _ => True)); [intros ? ? ? ? ?; exact I|].
  intros pageStart.
  eapply (hoare_bind _ _ (fun _ _ => True)); [intros ? ? ? ? ?; exact I|].
  intros u1.
  eapply (hoare_bind _ _ (fun _ _ => True)); [intros ? ? ? ? ?; exact I|].
  intros u2.
  eapply (hoare_bind _ _ (fun _ s1 => bucket_ s1 = pageStart)).
  - intros s1 x s2 _ E. unfold set_bucket in E. done_inv. reflexivity.
  - intros u3. apply hoare_ret. intros s1 ->. reflexivity.
Qed.

Lemma allocate_new_bucket_ptr b k size s p s' :
  allocate_new_bucket b k size s = Done p s' ->
  p = size_t (bucket_ s' + headerWidth).
Proof.
  intros E. exact (allocate_new_bucket_ptr_triple b k size s p s' I E).
Qed.

Lemma page_base b a :
  b mod pageSize = 0 -> b <= a < b + pageSize -> a - a mod pageSize = b.
Proof.
  intros Hb Ha. replace a with (b + (a - b)) at 2 by lia.
  rewrite mod_offset by (try assumption; lia). lia.
Qed.

Lemma allocate_small_inv n s p s' :
  state_wf s ->
  CC_MEM_ALIGN n <= pageSize - headerWidth ->
  allocate n s = Done p s' ->
  exists h',
    pages s' !! bucket_ s' = Some (Header h')
    /\ 0 < bucket_ s' /\ bucket_ s' mod pageSize = 0
    /\ bucket_ s' + pageSize <= MAP_FAILED
    /\ headerWidth <= p - bucket_ s'
    /\ p + CC_MEM_ALIGN n = bucket_ s' + bytesDirty_ h'
    /\ bytesDirty_ h' <= pageSize.
Proof.
  intros Hwf Hsmall E.
  pose proof (proj1 (allocate_wf n s p s' Hwf E)) as Hwf'.
  pose proof (CC_MEM_ALIGN_range n) as Hsz.
  pose proof headerWidth_nonneg as Hhw.
  assert (Hkey : forall h', pages s' !! bucket_ s' = Some (Header h') ->
            0 < bucket_ s' /\ bucket_ s' mod pageSize = 0
            /\ bucket_ s' + pageSize <= MAP_FAILED
            /\ bytesDirty_ h' <= pageSize).
  { intros h' Hh'. destruct Hwf' as [(_ & _ & Hb3) [Hk Hh] _].
    destruct (Hk _ _ Hh') as (H1 & H2 & H3).
    destruct (Hh _ _ Hh') as ((_ & H4) & _). lia. }
  assert (Hnew : forall b k s1,
            allocate_new_bucket b k (CC_MEM_ALIGN n) s1 = Done p s' ->
            pages s1 !! MAP_FAILED = None ->
            exists h',
              pages s' !! bucket_ s' = Some (Header h')
              /\ 0 < bucket_ s' /\ bucket_ s' mod pageSize = 0
              /\ bucket_ s' + pageSize <= MAP_FAILED
              /\ headerWidth <= p - bucket_ s'
              /\ p + CC_MEM_ALIGN n = bucket_ s' + bytesDirty_ h'
              /\ bytesDirty_ h' <= pageSize).
  { intros b k s1 E1 Hnone.
    pose proof (allocate_new_bucket_ptr _ _ _ _ _ _ E1) as Hp.
    apply allocate_new_bucket_inv in E1; [|exact Hnone].
    destruct E1 as (p0 & m & Hs' & _).
    assert (Hl : pages s' !! bucket_ s'
                 = Some (Header
                           (mkHeader
                              (uint16 (if 0 <? k then k - 1
                                       else CC_MEM_PAGE_PREALLOC - 1))
                              (uint16 (headerWidth + CC_MEM_ALIGN n)) 1
                              true))).
    { rewrite Hs'. proj. apply lookup_insert_eq. }
    destruct (Hkey _ Hl) as (H1 & H2 & H3 & H4).
    eexists. split; [exact Hl|]. cbn [bytesDirty_] in *.
    rewrite uint16_id by lia.
    rewrite size_t_id in Hp by (unfold MAP_FAILED in *; lia).
    repeat split; try assumption; lia. }
  unfold allocate in E. rewrite bind_get_bucket in E.
  rewrite small_limit in E.
  destruct (Z.leb_spec (CC_MEM_ALIGN n) (pageSize - headerWidth)); [|lia].
  destruct (Z.eqb_spec (bucket_ s) 0) as [H0|Hne]; cbn [negb] in E.
  - rewrite bind_ret in E. eapply Hnew; [exact E|].
    apply wf_no_map_failed. exact Hwf.
  - pose proof Hwf as [(Hb1 & Hb2 & Hb3) [Hkeys Hhdrs] Hbk].
    destruct Hbk as [?|(Hp1 & Hp2 & Hp3)]; [contradiction|].
    unfold bind at 1 in E.
    destruct (allocate_in_bucket (bucket_ s) (CC_MEM_ALIGN n) s)
      as [r s1| |] eqn:Ein; try discriminate E.
    apply allocate_in_bucket_inv in Ein; [|exact Hp2].
    destruct Ein as (h & Hh & [(Hfit & -> & ->)|(Hfull & -> & ->)]).
    + unfold ret in E. inversion E; subst. proj.
      destruct (Hhdrs _ h Hh) as ((Hbd1 & Hbd2) & _).
      rewrite size_t_id in Hfit by lia.
      eexists. split; [apply lookup_insert_eq|]. cbn [bytesDirty_].
      rewrite uint16_id by lia.
      rewrite size_t_id by (unfold MAP_FAILED in *; lia).
      repeat split; try assumption; lia.
    + eapply Hnew; [exact E|]. proj.
      rewrite lookup_closed_pages_ne by lia.
      apply wf_no_map_failed. exact Hwf.
Qed.

(** X10. Where a small object is put, on a platform whose page size is below
    65536 (the section's [pageSize_u16]) and from a well-formed state: after a
    request served by the small-object branch the context's bucket is mapped,
    and the block handed out starts behind the bucket header and ends exactly
    at the bucket's [bytesDirty_], inside the bucket's page. *)
Theorem small_block_placement (n : Z) (s s' : State) (p : Z) :
  state_wf s ->
  CC_MEM_ALIGN n <= pageSize - headerWidth ->
  allocate n s = Done p s' ->
  exists h',
    pages s' !! bucket_ s' = Some (Header h')
    /\ bucket_ s' mod pageSize = 0
    /\ bucket_ s' + headerWidth <= p
    /\ p + CC_MEM_ALIGN n = bucket_ s' + bytesDirty_ h'
    /\ bucket_ s' + bytesDirty_ h' <= bucket_ s' + pageSize.
Proof.
  intros Hwf Hsmall E.
  destruct (allocate_small_inv n s p s' Hwf Hsmall E)
    as (h' & H1 & H2 & H3 & H4 & H5 & H6 & H7).
  exists h'. repeat split; try assumption; lia.
Qed.

(** X11. Blocks of one bucket are laid out back to back, on a platform whose
    page size is below 65536 (the section's [pageSize_u16]) and from a
    well-formed state: when a small request is followed by another small
    request that still fits in the bucket, the second block starts exactly
    where the aligned first block ends, so the two blocks do not overlap. *)
Theorem consecutive_small_blocks_adjacent
    (n m : Z) (s s1 : State) (p : Z) (h1 : BucketHeader) :
  state_wf s ->
  CC_MEM_ALIGN n <= pageSize - headerWidth ->
  CC_MEM_ALIGN m <= pageSize - headerWidth ->
  allocate n s = Done p s1 ->
  pages s1 !! bucket_ s1 = Some (Header h1) ->
  bytesDirty_ h1 + CC_MEM_ALIGN m <= pageSize ->
  objectCount_ h1 < 2 ^ 16 - 1 ->
  exists s2, allocate m s1 = Done (p + CC_MEM_ALIGN n) s2.
Proof.
  intros Hwf Hn Hm E Hh1 Hfit Hc.
  destruct (allocate_small_inv n s p s1 Hwf Hn E)
    as (h' & H1 & H2 & H3 & H4 & H5 & H6 & H7).
  rewrite Hh1 in H1. inversion H1; subst h'.
  pose proof (proj1 (allocate_wf n s p s1 Hwf E)) as [_ [_ Hhdr] _].
  destruct (Hhdr _ _ Hh1) as ((Hbd1 & Hbd2) & _ & Hcnt & _).
  pose proof headerWidth_nonneg as Hhw.
  pose proof (allocate_fast_eq m h1 s1) as Hrun. cbv zeta in Hrun.
  rewrite small_limit in Hrun.
  specialize (Hrun Hm ltac:(lia) ltac:(lia)
                ltac:(unfold MAP_FAILED in *; lia) Hh1 ltac:(lia) Hfit
                ltac:(lia)).
  eexists. rewrite H6. exact Hrun.
Qed.

(** *** The block handed out is mapped memory *)

Lemma allocate_direct_inv n s p s' :
  pageSize - headerWidth < CC_MEM_ALIGN n <= pageSize ->
  allocate n s = Done p s' ->
  p = MAP_FAILED
  \/ (p = brk s /\ pages s' = map_pages (brk s) (pageCountOf pageSize) (pages s)).
Proof.
  intros Hsz E. unfold allocate in E. rewrite bind_get_bucket in E.
  rewrite small_limit in E.
  destruct (Z.leb_spec (CC_MEM_ALIGN n) (pageSize - headerWidth)); [lia|].
  destruct (Z.leb_spec (CC_MEM_ALIGN n) pageSize); [|lia].
  unfold bind at 1 in E.
  destruct (sys_mmap_cases pageSize s) as [(s1 & Hm & _)|[_ Hm]];
    rewrite Hm in E; apply assert_inv in E; unfold ret in E;
    inversion E; subst; [left; reflexivity|right].
  split; reflexivity.
Qed.

Lemma allocate_large_inv n s p s' :
  pageSize < CC_MEM_ALIGN n ->
  pages s !! MAP_FAILED = None ->
  allocate n s = Done p s' ->
  let size := size_t (CC_MEM_ALIGN n + prefixWidth) in
  let pageCount :=
    uint32 (size / pageSize + (if 0 <? size mod pageSize then 1 else 0)) in
  let pagesMapped := pageCountOf (size_t (pageCount * pageSize)) in
  p = size_t (brk s + prefixWidth)
  /\ brk s' = brk s + pagesMapped * pageSize
  /\ pages s' = <[brk s := Prefix pageCount]>
                  (map_pages (brk s) pagesMapped (pages s)).
Proof.
  intros Hsz Hnone E size pageCount pagesMapped.
  pose proof headerWidth_nonneg as Hhw.
  unfold allocate in E. rewrite bind_get_bucket in E.
  rewrite small_limit in E.
  destruct (Z.leb_spec (CC_MEM_ALIGN n) (pageSize - headerWidth)); [lia|].
  destruct (Z.leb_spec (CC_MEM_ALIGN n) pageSize); [lia|].
  fold size in E. fold pageCount in E.
  unfold bind at 1 in E.
  destruct (sys_mmap_cases (size_t (pageCount * pageSize)) s)
    as [(s1 & Hm & Hp & _)|[_ Hm]]; rewrite Hm in E; apply assert_inv in E.
  - unfold bind, store_u32 in E. rewrite Hp, Hnone in E. discriminate E.
  - unfold bind at 1, store_u32 in E. cbn [pages] in E.
    fold pagesMapped in E.
    destruct (map_pages (brk s) pagesMapped (pages s) !! brk s);
      [|discriminate E].
    unfold ret in E. inversion E; subst. proj. auto.
Qed.

(** X12.  What a caller gets: for a request of [n] bytes (with [n] at most
    2^64 - 16 and a page count that fits [uint32_t]) every byte of the block
    [[p, p + n)] that [allocate] returns lies in a mapped page, in all three
    size classes -- unless [p] is the [MAP_FAILED] a release build passes on
    from a failed single-page mapping. *)
Theorem allocate_block_is_mapped (n : Z) (s s' : State) (p : Z) :
  state_wf s ->
  0 <= n <= 2 ^ 64 - 16 ->
  pageCountOf (CC_MEM_ALIGN n + prefixWidth) < 2 ^ 32 ->
  allocate n s = Done p s' ->
  p <> MAP_FAILED ->
  forall i, 0 <= i < n -> mapped s' (p + i).
Proof.
  intros Hwf Hn Hc32 E Hp i Hi.
  destruct (CC_MEM_ALIGN_spec n Hn) as [Hal Hm].
  pose proof headerWidth_nonneg as Hhw.
  pose proof Hwf as [(Hb1 & Hb2 & Hb3) _ _].
  pose proof (proj1 (allocate_wf n s p s' Hwf E)) as Hwf'.
  unfold mapped.
  destruct (Z.le_gt_cases (CC_MEM_ALIGN n) (pageSize - headerWidth))
    as [Hsmall|Hbig].
  - destruct (allocate_small_inv n s p s' Hwf Hsmall E)
      as (h' & H1 & H2 & H3 & H4 & H5 & H6 & H7).
    rewrite (page_base (bucket_ s')) by (try assumption; lia).
    rewrite H1. eauto.
  - destruct (Z.le_gt_cases (CC_MEM_ALIGN n) pageSize) as [Hdir|Hlarge].
    + destruct (allocate_direct_inv n s p s' ltac:(lia) E)
        as [?|[-> Hpages]]; [contradiction|].
      rewrite (page_base (brk s)) by (try assumption; lia).
      rewrite Hpages, pageCountOf_one, lookup_map_pages_first by lia. eauto.
    + pose proof (allocate_large_inv n s p s' Hlarge
                    (wf_no_map_failed s Hwf) E) as Hinv.
      cbv zeta in Hinv. unfold prefixWidth in *.
      rewrite (size_t_id (CC_MEM_ALIGN n + 4)) in Hinv
        by (apply Z.mod_divide in Hm; [|lia]; destruct Hm as [k Hk]; lia).
      rewrite ceil_div in Hinv by lia.
      set (count := pageCountOf (CC_MEM_ALIGN n + 4)) in *.
      destruct (pageCountOf_covers (CC_MEM_ALIGN n + 4) ltac:(lia))
        as [Hcov Hmin]. fold count in Hcov, Hmin.
      assert (Hc1 : 1 <= count) by nia.
      rewrite (uint32_id count) in Hinv by lia.
      rewrite (size_t_id (count * pageSize)) in Hinv by nia.
      rewrite pageCountOf_mul in Hinv.
      destruct Hinv as (Hptr & Hbrk & Hpages).
      destruct Hwf' as [(_ & _ & Hb3') _ _]. rewrite Hbrk in Hb3'.
      rewrite size_t_id in Hptr by (unfold MAP_FAILED in *; nia).
      subst p.
      pose proof (Z.div_mod (4 + i) pageSize ltac:(lia)) as Hdm.
      pose proof (Z.mod_pos_bound (4 + i) pageSize pageSize_pos) as Hr.
      assert (Hq : 0 <= (4 + i) / pageSize < count).
      { split; [apply Z.div_pos; lia|].
        apply Z.div_lt_upper_bound; [lia|]. nia. }
      assert (Hbase : brk s + 4 + i - (brk s + 4 + i) mod pageSize
                      = brk s + (4 + i) / pageSize * pageSize).
      { replace (brk s + 4 + i)
          with (brk s + (4 + i) / pageSize * pageSize
                + (4 + i) mod pageSize) at 2 by lia.
        rewrite mod_offset; [lia| |lia].
        rewrite Z.mod_add by lia. exact Hb2. }
      rewrite Hbase, Hpages.
      destruct (decide (brk s + (4 + i) / pageSize * pageSize = brk s))
        as [->|Hne].
      * rewrite lookup_insert_eq. eauto.
      * rewrite lookup_insert_ne by congruence. rewrite lookup_map_pages.
        destruct (decide (brk s + (4 + i) / pageSize * pageSize
                          ∈ page_range (brk s) count)) as [_|Hout];
          [eauto|].
        exfalso. apply Hout. apply elem_of_page_range.
        exists ((4 + i) / pageSize). split; [exact Hq|reflexivity].
Qed.

(** *** What [allocate] unmaps *)

Lemma map_pages_keeps (addr n : Z) (m : gmap Z PageHead) a :
  is_Some (m !! a) -> is_Some (map_pages addr n m !! a).
Proof.
  intros H. rewrite lookup_map_pages.
  destruct (decide (a ∈ page_range addr n)); eauto.
Qed.

Lemma insert_keeps (m : gmap Z PageHead) b x a :
  is_Some (m !! a) -> is_Some (<[b := x]> m !! a).
Proof.
  intros H. destruct (decide (b = a)) as [->|Hne].
  - rewrite lookup_insert_eq. eauto.
  - rewrite lookup_insert_ne by exact Hne. exact H.
Qed.

(** X13. What [allocate] can unmap, on a platform whose page size is below
    65536 (the section's [pageSize_u16]) and from a well-formed state: the
    only page a returning [allocate] can take away is the page of the
    context's own bucket, and only when the request did not fit in it and the
    [objectCount_] field of its header reads 0. (The field is a [uint16_t]: it
    also reads 0 after 65536 objects, so this is the test the code makes, not
    a proof that the bucket is empty.) *)
Theorem allocate_unmaps_only_its_empty_bucket
    (n : Z) (s s' : State) (p : Z) (a : Z) :
  state_wf s ->
  allocate n s = Done p s' ->
  is_Some (pages s !! a) -> pages s' !! a = None ->
  a = bucket_ s
  /\ exists h, pages s !! a = Some (Header h)
               /\ objectCount_ h = 0
               /\ pageSize < bytesDirty_ h + CC_MEM_ALIGN n.
Proof.
  intros Hwf E Hsome Hgone.
  pose proof (CC_MEM_ALIGN_range n) as Hsz.
  pose proof headerWidth_nonneg as Hhw.
  pose proof Hwf as [(Hb1 & Hb2 & Hb3) [Hkeys Hhdrs] Hbk].
  assert (Hcontra : is_Some (pages s' !! a) -> False)
    by (rewrite Hgone; intros [x Hx]; discriminate Hx).
  destruct (Z.le_gt_cases (CC_MEM_ALIGN n) (pageSize - headerWidth))
    as [Hsmall|Hbig].
  - unfold allocate in E. rewrite bind_get_bucket in E.
    rewrite small_limit in E.
    destruct (Z.leb_spec (CC_MEM_ALIGN n) (pageSize - headerWidth)); [|lia].
    destruct (Z.eqb_spec (bucket_ s) 0) as [H0|Hne]; cbn [negb] in E.
    + rewrite bind_ret in E.
      apply allocate_new_bucket_inv in E; [|apply wf_no_map_failed; exact Hwf].
      destruct E as (p0 & m & Hs' & [(Hk & _)|(-> & ->)]); [lia|].
      exfalso. apply Hcontra. rewrite Hs'. proj.
      apply insert_keeps, map_pages_keeps. exact Hsome.
    + destruct Hbk as [?|(Hp1 & Hp2 & Hp3)]; [contradiction|].
      unfold bind at 1 in E.
      destruct (allocate_in_bucket (bucket_ s) (CC_MEM_ALIGN n) s)
        as [r s1| |] eqn:Ein; try discriminate E.
      apply allocate_in_bucket_inv in Ein; [|exact Hp2].
      destruct Ein as (h & Hh & [(Hfit & -> & ->)|(Hfull & -> & ->)]).
      * unfold ret in E. inversion E; subst.
        exfalso. apply Hcontra. proj. apply insert_keeps. exact Hsome.
      * destruct (Hhdrs _ h Hh) as ((Hbd1 & Hbd2) & _).
        rewrite size_t_id in Hfull by lia.
        assert (Hclosed : closed_pages (bucket_ s) h (pages s) !! a = None).
        { apply allocate_new_bucket_inv in E.
          2:{ proj. rewrite lookup_closed_pages_ne by lia.
              apply wf_no_map_failed. exact Hwf. }
          destruct E as (p0 & m & Hs' & [(Hk & -> & ->)|(-> & ->)]);
            destruct (closed_pages (bucket_ s) h (pages s) !! a) as [x|]
              eqn:Hx; try reflexivity; exfalso; apply Hcontra;
            rewrite Hs'; proj.
          - apply insert_keeps. rewrite Hx. eauto.
          - apply insert_keeps, map_pages_keeps. rewrite Hx. eauto. }
        unfold closed_pages in Hclosed.
        destruct (Z.eqb_spec (objectCount_ h) 0) as [Hz|Hnz].
        -- apply lookup_delete_None in Hclosed as [Heq|Hnone].
           ++ split; [congruence|]. exists h.
              split; [rewrite <- Heq; exact Hh|]. split; [exact Hz|lia].
           ++ rewrite Hnone in Hsome. destruct Hsome as [x Hx].
              discriminate Hx.
        -- exfalso.
           assert (is_Some (<[bucket_ s := Header
                               (mkHeader (preallocCount_ h) (bytesDirty_ h)
                                  (objectCount_ h) false)]> (pages s) !! a))
             by (apply insert_keeps; exact Hsome).
           rewrite Hclosed in H0. destruct H0 as [x Hx]. discriminate Hx.
  - exfalso. apply Hcontra.
    destruct (Z.le_gt_cases (CC_MEM_ALIGN n) pageSize) as [Hdir|Hlarge].
    + unfold allocate in E. rewrite bind_get_bucket in E.
      rewrite small_limit in E.
      destruct (Z.leb_spec (CC_MEM_ALIGN n) (pageSize - headerWidth));
        [lia|].
      destruct (Z.leb_spec (CC_MEM_ALIGN n) pageSize); [|lia].
      unfold bind at 1 in E.
      destruct (sys_mmap_cases pageSize s) as [(s1 & Hm & Hp & _)|[_ Hm]];
        rewrite Hm in E; apply assert_inv in E; unfold ret in E;
        inversion E; subst.
      * rewrite Hp. exact Hsome.
      * proj. apply map_pages_keeps. exact Hsome.
    + pose proof (allocate_large_inv n s p s' Hlarge
                    (wf_no_map_failed s Hwf) E) as (_ & _ & Hpages).
      rewrite Hpages. apply insert_keeps, map_pages_keeps. exact Hsome.
Qed.

(** *** Packing *)

Lemma total_aligned_nonneg sizes : 0 <= total_aligned sizes.
Proof.
  induction sizes as [|n rest IH]; cbn; [lia|].
  pose proof (CC_MEM_ALIGN_range n). lia.
Qed.

Lemma allocate_all_fast sizes : forall s h,
  let b := bucket_ s in
  b <> 0 -> 0 <= b -> b + pageSize < 2 ^ 64 ->
  pages s !! b = Some (Header h) ->
  headerWidth <= bytesDirty_ h ->
  bytesDirty_ h + total_aligned sizes <= pageSize ->
  0 <= objectCount_ h ->
  objectCount_ h + Z.of_nat (length sizes) < 2 ^ 16 ->
  allocate_all sizes s
  = Done (layout (b + bytesDirty_ h) sizes)
      (mkState
         (<[b := Header (mkHeader (preallocCount_ h)
                           (bytesDirty_ h + total_aligned sizes)
                           (objectCount_ h + Z.of_nat (length sizes))
                           (open_ h))]> (pages s))
         (brk s) b (trace s ++ lock_pairs b sizes)).
Proof.
  pose proof headerWidth_nonneg as Hhw.
  induction sizes as [|n rest IH]; intros s h b Hb0 Hb Hb64 Hh Hbd Hfit Hc Hlen.
  - cbn. unfold ret, lock_pairs. cbn. rewrite !Z.add_0_r, app_nil_r.
    rewrite insert_id by (destruct h; exact Hh). destruct s; reflexivity.
  - cbn [allocate_all total_aligned layout length] in *.
    pose proof (CC_MEM_ALIGN_range n) as Hn.
    pose proof (total_aligned_nonneg rest) as Hrest.
    pose proof (allocate_fast_eq n h s) as H1. cbv zeta in H1. fold b in H1.
    rewrite small_limit in H1.
    specialize (H1 ltac:(lia) Hb0 Hb Hb64 Hh ltac:(lia) ltac:(lia)
                  ltac:(lia)).
    unfold bind at 1. rewrite H1.
    set (h1 := mkHeader (preallocCount_ h) (bytesDirty_ h + CC_MEM_ALIGN n)
                 (objectCount_ h + 1) (open_ h)).
    set (s1 := mkState _ _ _ _).
    specialize (IH s1 h1). cbv zeta in IH. subst s1 h1.
    cbn [bucket_ pages brk trace preallocCount_ bytesDirty_ objectCount_
         open_] in IH.
    unfold bind at 1.
    rewrite IH; try assumption; try lia; [|apply lookup_insert_eq].
    unfold ret. rewrite insert_insert_eq.
    unfold lock_pairs. cbn [map concat]. tidy_trace.
    replace (bytesDirty_ h + CC_MEM_ALIGN n + total_aligned rest)
      with (bytesDirty_ h + (CC_MEM_ALIGN n + total_aligned rest)) by lia.
    replace (objectCount_ h + 1 + Z.of_nat (length rest))
      with (objectCount_ h + Z.of_nat (S (length rest))) by lia.
    replace (b + (bytesDirty_ h + CC_MEM_ALIGN n))
      with (b + bytesDirty_ h + CC_MEM_ALIGN n) by lia.
    reflexivity.
Qed.

Lemma filter_syscall_lock_pairs b sizes :
  filter (fun e => is_syscall e = true) (lock_pairs b sizes) = [].
Proof.
  unfold lock_pairs. induction sizes as [|n rest IH]; [reflexivity|].
  cbn [map concat]. exact IH.
Qed.

(** X14. Packing, on a platform whose page size is below 65536 (the section's
    [pageSize_u16]): starting without a bucket, a sequence of fewer than 65536
    requests whose aligned sizes fit together with the header in one page is
    served from a single bucket: the blocks lie back to back behind the header
    in the first page of one fresh run, the bucket counts one live object per
    request, and the whole sequence costs exactly one system call, the [mmap]
    of the 16-page run. *)
Theorem packed_in_one_page (n : Z) (rest : list Z) (s : State) :
  let sizes := n :: rest in
  bucket_ s = 0 -> 0 < brk s ->
  brk s + CC_MEM_PAGE_PREALLOC * pageSize <= MAP_FAILED ->
  headerWidth + total_aligned sizes <= pageSize ->
  Z.of_nat (length sizes) < 2 ^ 16 ->
  exists s',
    allocate_all sizes s = Done (layout (brk s + headerWidth) sizes) s'
    /\ bucket_ s' = brk s
    /\ pages s' !! brk s
       = Some (Header (mkHeader (CC_MEM_PAGE_PREALLOC - 1)
                         (headerWidth + total_aligned sizes)
                         (Z.of_nat (length sizes)) true))
    /\ filter (fun e => is_syscall e = true) (events_since s s')
       = [Mmap (pageSize * CC_MEM_PAGE_PREALLOC) (brk s)].
Proof.
  intros sizes Hnull Hbrk Hroom Hfit Hlen. subst sizes.
  cbn [allocate_all total_aligned layout length] in *.
  pose proof headerWidth_nonneg as Hhw.
  pose proof (CC_MEM_ALIGN_range n) as Hn.
  pose proof (total_aligned_nonneg rest) as Hrest.
  destruct (allocate_rollover_cases n s) as [H1 _];
    [rewrite small_limit; lia|exact Hbrk|].
  cbv zeta in H1. specialize (H1 Hnull Hroom).
  unfold bind at 1. rewrite H1.
  set (h1 := mkHeader (CC_MEM_PAGE_PREALLOC - 1)
               (headerWidth + CC_MEM_ALIGN n) 1 true).
  set (s1 := mkState _ _ _ _).
  pose proof (allocate_all_fast rest s1 h1) as H2. cbv zeta in H2.
  subst s1 h1.
  cbn [bucket_ pages brk trace preallocCount_ bytesDirty_ objectCount_ open_]
    in H2.
  unfold bind at 1.
  rewrite H2;
    [|lia|lia|unfold MAP_FAILED, CC_MEM_PAGE_PREALLOC in *; lia
     |apply lookup_insert_eq|lia|lia|lia|lia].
  unfold ret. eexists. split.
  - replace (brk s + (headerWidth + CC_MEM_ALIGN n))
      with (brk s + headerWidth + CC_MEM_ALIGN n) by lia.
    reflexivity.
  - proj. split; [reflexivity|]. split.
    + rewrite lookup_insert_eq.
      replace (headerWidth + CC_MEM_ALIGN n + total_aligned rest)
        with (headerWidth + (CC_MEM_ALIGN n + total_aligned rest)) by lia.
      replace (1 + Z.of_nat (length rest))
        with (Z.of_nat (S (length rest))) by lia.
      reflexivity.
    + erewrite events_since_app by (tidy_trace; reflexivity).
      cbn [filter]. rewrite filter_cons_True by reflexivity.
      rewrite filter_syscall_lock_pairs. reflexivity.
Qed.

(** *** Requests at the limits of the integer types *)

Lemma CC_MEM_ALIGN_overflow x :
  2 ^ 64 - CC_MEM_GRANULARITY < x < 2 ^ 64 -> CC_MEM_ALIGN x = 0.
Proof.
  unfold CC_MEM_ALIGN, CC_MEM_GRANULARITY, size_t. intros Hx.
  pose proof (Z.div_mod x 16 ltac:(lia)) as Hdm.
  pose proof (Z.mod_pos_bound x 16 ltac:(lia)) as Hr.
  assert (Hq : x / 16 = 2 ^ 60 - 1) by lia.
  destruct (Z.ltb_spec 0 (x mod 16)); [|lia].
  rewrite Hq. reflexivity.
Qed.

(** X15.  A request within 15 bytes of [SIZE_MAX] is not refused: the
    rounding of [CC_MEM_ALIGN] wraps to 0, so the request is served as a
    small object of no bytes.  Without a bucket, [allocate] maps a fresh run
    and returns the address right behind the new header, and the bucket
    records one live object but no byte taken beyond its header. *)
Theorem huge_request_gets_empty_block (x : Z) (s : State) :
  2 ^ 64 - CC_MEM_GRANULARITY < x < 2 ^ 64 ->
  bucket_ s = 0 -> 0 < brk s ->
  brk s + CC_MEM_PAGE_PREALLOC * pageSize <= MAP_FAILED ->
  CC_MEM_ALIGN x = 0
  /\ exists s',
       allocate x s = Done (brk s + headerWidth) s'
       /\ bucket_ s' = brk s
       /\ pages s' !! brk s
          = Some (Header (mkHeader (CC_MEM_PAGE_PREALLOC - 1)
                            headerWidth 1 true)).
Proof.
  intros Hx Hnull Hbrk Hroom.
  pose proof (CC_MEM_ALIGN_overflow x Hx) as Hz.
  split; [exact Hz|].
  pose proof headerWidth_nonneg as Hhw.
  destruct (allocate_rollover_cases x s) as [H1 _];
    [rewrite small_limit, Hz; lia|exact Hbrk|].
  cbv zeta in H1. specialize (H1 Hnull Hroom).
  eexists. split; [exact H1|]. proj. split; [reflexivity|].
  rewrite lookup_insert_eq, Hz, Z.add_0_r. reflexivity.
Qed.

Lemma pageSize_ge_gran : CC_MEM_GRANULARITY <= pageSize.
Proof.
  pose proof pageSize_gran as Hg. unfold CC_MEM_GRANULARITY in *.
  apply Z.mod_divide in Hg; [|lia]. destruct Hg as [k Hk]. lia.
Qed.

(** X16.  The page count of a large block is kept in 32 bits.  When the
    request needs 2^32 pages or more, the count is truncated before it is
    passed to [mmap]: a call that returns has mapped only the truncated
    number of pages, recorded that number in the prefix, and the [n] bytes
    the caller asked for reach beyond the end of the mapping -- the last
    byte of the block is not mapped. *)
Theorem large_request_page_count_truncated (n : Z) (s s' : State) (p : Z) :
  let pageCount := pageCountOf (CC_MEM_ALIGN n + prefixWidth) in
  state_wf s ->
  0 <= n <= 2 ^ 64 - 32 ->
  pageSize < CC_MEM_ALIGN n ->
  2 ^ 32 <= pageCount ->
  allocate n s = Done p s' ->
  p = brk s + prefixWidth
  /\ pages s' !! brk s = Some (Prefix (pageCount mod 2 ^ 32))
  /\ brk s' = brk s + (pageCount mod 2 ^ 32) * pageSize
  /\ brk s' < p + n
  /\ ~ mapped s' (p + n - 1).
Proof.
  intros pc Hwf Hn Hlarge Hpc E.
  pose proof pageSize_ge_gran as Hg. unfold CC_MEM_GRANULARITY in Hg.
  pose proof (CC_MEM_ALIGN_spec n ltac:(lia)) as [Halign _].
  pose proof (proj1 (allocate_wf n s p s' Hwf E)) as Hwf'.
  pose proof (allocate_large_inv n s p s' Hlarge (wf_no_map_failed s Hwf) E)
    as Hinv.
  cbv zeta in Hinv.
  rewrite (size_t_id (CC_MEM_ALIGN n + prefixWidth)) in Hinv
    by (unfold prefixWidth; lia).
  rewrite ceil_div in Hinv by (unfold prefixWidth; lia).
  fold pc in Hinv. unfold uint32 in Hinv.
  pose proof (Z.mod_pos_bound pc (2 ^ 32) ltac:(lia)) as Hr.
  rewrite (size_t_id (pc mod 2 ^ 32 * pageSize)) in Hinv by nia.
  rewrite pageCountOf_mul in Hinv.
  destruct Hinv as (Hp & Hbrk' & Hpages).
  assert (Hpre : pages s' !! brk s = Some (Prefix (pc mod 2 ^ 32)))
    by (rewrite Hpages; apply lookup_insert_eq).
  destruct Hwf as [(Hb0 & Hbm & Hbmax) _ _].
  destruct Hwf' as [(Hb0' & Hbm' & Hbmax') [Haddr _] _].
  destruct (Haddr _ _ Hpre) as (_ & _ & Hin).
  unfold MAP_FAILED in *.
  rewrite size_t_id in Hp by (unfold prefixWidth; lia).
  assert (Hshort : pc mod 2 ^ 32 * pageSize < n).
  { pose proof (pageCountOf_covers (CC_MEM_ALIGN n + prefixWidth)
                  ltac:(unfold prefixWidth; lia)) as [_ Hc].
    fold pc in Hc. unfold prefixWidth in Hc.
    pose proof (Z.div_mod pc (2 ^ 32) ltac:(lia)) as Hdm.
    assert (1 <= pc / 2 ^ 32) by (apply Z.div_le_lower_bound; lia).
    assert (pc mod 2 ^ 32 <= pc - 2 ^ 32) by lia.
    nia. }
  split; [exact Hp|]. split; [exact Hpre|]. split; [exact Hbrk'|].
  split; [unfold prefixWidth in *; lia|].
  intros [x Hx]. destruct (Haddr _ _ Hx) as (_ & _ & Hle).
  set (a := p + n - 1) in *.
  assert (Ha : brk s' <= a) by (unfold a, prefixWidth in *; lia).
  apply Z.mod_divide in Hbm'; [|lia]. destruct Hbm' as [k Hk].
  pose proof (Z.div_mod a pageSize ltac:(lia)) as Hdm.
  pose proof (Z.mod_pos_bound a pageSize pageSize_pos) as Hr'.
  assert (k <= a / pageSize) by nia. nia.
Qed.

(** The hot path with the stores to the 16-bit fields as the code performs
    them, for any page size. *)
Lemma allocate_fast_wrapping (n : Z) (h : BucketHeader) (s : State) :
  let b := bucket_ s in
  let size := CC_MEM_ALIGN n in
  size <= size_t (pageSize - headerWidth) ->
  b <> 0 ->
  pages s !! b = Some (Header h) ->
  size <= size_t (pageSize - bytesDirty_ h) ->
  allocate n s
  = Done (size_t (b + bytesDirty_ h))
      (mkState
         (<[b := Header (mkHeader (preallocCount_ h)
                           (uint16 (bytesDirty_ h + size))
                           (uint16 (objectCount_ h + 1)) (open_ h))]>
            (pages s))
         (brk s) b (trace s ++ [Acquire b; Release b])).
Proof using Type.
  intros b size Hsmall Hb0 Hh Hfit.
  unfold allocate. rewrite bind_get_bucket. fold b. fold size.
  rewrite (proj2 (Z.leb_le _ _) Hsmall).
  rewrite (proj2 (Z.eqb_neq _ _) Hb0). cbn [negb].
  unfold bind at 1.
  rewrite (allocate_in_bucket_fits b size h s Hh Hfit).
  unfold ret. reflexivity.
Qed.

End Allocator.

(** * A 4096-byte-page platform

    The theorems above at [pageSize = 4096] and [sizeof(BucketHeader) = 48]
    (a 40-byte [pthread_mutex_t], three [uint16_t], one [bool], padded to the
    mutex's 8-byte alignment), in a debug build. *)

Ltac zcalc :=
  repeat split;
  first [ reflexivity
        | apply Z.leb_le; vm_compute; reflexivity
        | apply Z.ltb_lt; vm_compute; reflexivity
        | apply Z.eqb_neq; vm_compute; reflexivity
        | vm_compute; reflexivity ].

Lemma free_dispatch_witness :
  free 4096 true 4096 (mkState {[ 4096 := Raw ]} 8192 0 [])
  = Done tt (mkState (delete 4096 {[ 4096 := Raw ]}) 8192 0
               [Munmap 4096 4096 0]).
Proof.
  destruct (free_dispatch 4096 true ltac:(zcalc)
              (mkState {[ 4096 := Raw ]} 8192 0 []) 4096
              ltac:(zcalc) ltac:(zcalc)) as (_ & H & _).
  apply H. reflexivity.
Defined.



Lemma allocate_large_roundtrip_witness :
  exists s1 s2,
    allocate 4096 48 true 5000 (init 4096) = Done 4100 s1
    /\ events_since (init 4096) s1 = [Mmap 8192 4096]
    /\ pages s1 !! 4096 = Some (Prefix 2)
    /\ free 4096 true 4100 s1 = Done tt s2
    /\ events_since s1 s2 = [Munmap 4096 8192 0]
    /\ pages s2 = pages (init 4096).
Proof.
  destruct (allocate_large_roundtrip 4096 48 true ltac:(zcalc) ltac:(zcalc)
              ltac:(zcalc) 5000 (init 4096)
              (state_wf_init 4096 48 ltac:(zcalc) ltac:(zcalc))
              ltac:(zcalc) ltac:(zcalc) ltac:(zcalc) ltac:(zcalc))
    as (s1 & s2 & H1 & H2 & H3 & _ & _ & H4 & H5 & H6).
  exists s1, s2. split; [exact H1|]. split; [exact H2|].
  split; [rewrite H3; reflexivity|]. split; [exact H4|].
  split; [exact H5|exact H6].
Defined.

Lemma allocate_direct_witness :
  exists p s',
    allocate 4096 48 true 4090 (init 4096) = Done p s'
    /\ p mod 4096 = 0
    /\ events_since (init 4096) s' = [Mmap 4096 p]
    /\ pages (init 4096) !! p = None
    /\ pages s' = <[p := Raw]> (pages (init 4096))
    /\ bucket_ s' = bucket_ (init 4096).
Proof.
  apply (allocate_direct 4096 48 true ltac:(zcalc) ltac:(zcalc) ltac:(zcalc)
           ltac:(zcalc) 4090 (init 4096)
           (state_wf_init 4096 48 ltac:(zcalc) ltac:(zcalc))).
  - right. zcalc.
  - zcalc.
Defined.


Lemma free_stray_offset_witness :
  free 4096 true 4097 (init 4096) = Done tt (init 4096).
Proof.
  apply (free_stray_offset_is_noop 4096 true ltac:(zcalc) (init 4096) 4097
           ltac:(zcalc) ltac:(zcalc)).
Defined.



(** ** Where the code departs from the specification *)




(** A request of 8188 bytes: 8188 + 4 = 8192 bytes fit in two pages, but the
    size is rounded up to 8192 before the prefix is added, so three pages
    are mapped and the stored count is 3. *)
Lemma allocate_large_counterexample :
  pageCountOf 4096 (8188 + prefixWidth) = 2
  /\ exists s',
       allocate 4096 48 true 8188 (init 4096) = Done 4100 s'
       /\ trace s' = [Mmap (3 * 4096) 4096]
       /\ pages s' !! 4096 = Some (Prefix 3)
       /\ mappedPages s' = 3%nat.
Proof.
  split; [reflexivity|]. eexists. split; [vm_compute; reflexivity|].
  repeat split; vm_compute; reflexivity.
Qed.


(** A pointer one byte past a page boundary, in a debug build: [free]
    returns normally with the state untouched; it does not abort. *)
Lemma free_stray_offset_counterexample :
  0 < 4097 mod 4096 < prefixWidth
  /\ free 4096 true 4097 (init 4096) = Done tt (init 4096)
  /\ ~ (exists s', free 4096 true 4097 (init 4096) = Aborted s').
Proof.
  split; [split; reflexivity|]. split; [reflexivity|].
  intros [s' H]. vm_compute in H. discriminate H.
Qed.

(** C4 (the code at a failing input).  [allocate(4048)] fills the first
    bucket exactly; [allocate(0)] then still "fits" (0 <= 4096 - 4096) and
    returns the bucket's base plus 4096, that is the base address of the next
    page of the run; [allocate(8)] closes the first bucket and builds the
    second bucket on that very page.  [free] of the zero-size object sees
    offset 0, takes the direct-page branch and unmaps the page of the second
    bucket while its header says one live object and open -- and the context
    keeps pointing at the unmapped page, so the next small request reads
    unmapped memory.  The first bucket's count stays one too high for ever. *)
Theorem zero_size_object_unmaps_live_bucket :
  exists s3 s4,
    (a <- allocate 4096 48 true 4048 ;;
     z <- allocate 4096 48 true 0 ;;
     c <- allocate 4096 48 true 8 ;;
     ret (a, z, c)) (init 4096) = Done (4144, 8192, 8240) s3
    /\ pages s3 !! 4096 = Some (Header (mkHeader 15 4096 2 false))
    /\ pages s3 !! 8192 = Some (Header (mkHeader 14 64 1 true))
    /\ bucket_ s3 = 8192
    /\ free 4096 true 8192 s3 = Done tt s4
    /\ events_since s3 s4 = [Munmap 8192 4096 0]
    /\ pages s4 !! 8192 = None
    /\ bucket_ s4 = 8192
    /\ allocate 4096 48 true 8 s4 = Undefined.
Proof.
  do 2 eexists. split; [vm_compute; reflexivity|].
  split; [vm_compute; reflexivity|]. split; [vm_compute; reflexivity|].
  split; [reflexivity|]. split; [vm_compute; reflexivity|].
  repeat split; vm_compute; reflexivity.
Qed.

(** The alignment macro wraps around for the 15 largest sizes: such a
    request is treated like a request of size 0. *)
Example CC_MEM_ALIGN_wraps :
  CC_MEM_ALIGN (2 ^ 64 - 1) = 0 /\ CC_MEM_ALIGN 0 = 0
  /\ exists s', allocate 4096 48 true (2 ^ 64 - 1) (init 4096) = Done 4144 s'.
Proof.
  split; [reflexivity|]. split; [reflexivity|].
  eexists. vm_compute. reflexivity.
Qed.

(** * The rounding macro *)

(** X17.  Within the range in which it does not wrap, [CC_MEM_ALIGN] rounds
    up to the granularity: its result is the least multiple of 16 that is
    not below its argument, and rounding a second time changes nothing. *)
Theorem CC_MEM_ALIGN_least_multiple (x : Z) :
  0 <= x <= 2 ^ 64 - CC_MEM_GRANULARITY ->
  CC_MEM_ALIGN x mod CC_MEM_GRANULARITY = 0
  /\ x <= CC_MEM_ALIGN x
  /\ (forall y, x <= y -> y mod CC_MEM_GRANULARITY = 0 -> CC_MEM_ALIGN x <= y)
  /\ CC_MEM_ALIGN (CC_MEM_ALIGN x) = CC_MEM_ALIGN x.
Proof.
  unfold CC_MEM_GRANULARITY. intros Hx.
  destruct (CC_MEM_ALIGN_spec x Hx) as [Hb Hm].
  pose proof Hm as Hd. apply Z.mod_divide in Hd; [|lia].
  destruct Hd as [k Hk].
  split; [exact Hm|]. split; [lia|]. split.
  - intros y Hy Hym. apply Z.mod_divide in Hym; [|lia].
    destruct Hym as [j Hj]. lia.
  - apply CC_MEM_ALIGN_fixed; [lia|exact Hm].
Qed.

Lemma CC_MEM_ALIGN_least_multiple_witness :
  CC_MEM_ALIGN 17 mod CC_MEM_GRANULARITY = 0
  /\ 17 <= CC_MEM_ALIGN 17
  /\ (forall y, 17 <= y -> y mod CC_MEM_GRANULARITY = 0 -> CC_MEM_ALIGN 17 <= y)
  /\ CC_MEM_ALIGN (CC_MEM_ALIGN 17) = CC_MEM_ALIGN 17.
Proof. apply (CC_MEM_ALIGN_least_multiple 17 ltac:(zcalc)). Defined.

(** * A 64 KiB-page platform

    [bytesDirty_] is a [uint16_t]; with pages of 65536 bytes a bucket that is
    filled to its last byte cannot record it. *)

(** X18.  On a platform whose pages have 65536 bytes, a request that fills
    the open bucket exactly to the end of its page wraps [bytesDirty_] to 0.
    The next small request is then placed at offset 0: [allocate] returns
    the address of the bucket header itself, and a [free] of that pointer,
    whose offset in its page is 0, unmaps the page of the bucket that is
    still the allocator's open bucket and holds live objects. *)
Theorem bytesDirty_wraps_on_64k_pages
    (sizeofBucketHeader : Z) (debug : bool) (n m : Z) (h : BucketHeader)
    (s : State) :
  let pageSize := 65536 in
  let b := bucket_ s in
  0 < headerWidth sizeofBucketHeader ->
  CC_MEM_ALIGN n <= pageSize - headerWidth sizeofBucketHeader ->
  CC_MEM_ALIGN m <= pageSize - headerWidth sizeofBucketHeader ->
  0 < b -> b mod pageSize = 0 -> b + pageSize < 2 ^ 64 ->
  pages s !! b = Some (Header h) ->
  0 <= bytesDirty_ h ->
  bytesDirty_ h + CC_MEM_ALIGN n = pageSize ->
  0 <= objectCount_ h < 2 ^ 16 - 2 ->
  exists s1 s2 s3,
    allocate pageSize sizeofBucketHeader debug n s
    = Done (b + bytesDirty_ h) s1
    /\ pages s1 !! b
       = Some (Header (mkHeader (preallocCount_ h) 0 (objectCount_ h + 1)
                         (open_ h)))
    /\ allocate pageSize sizeofBucketHeader debug m s1 = Done b s2
    /\ pages s2 !! b
       = Some (Header (mkHeader (preallocCount_ h) (CC_MEM_ALIGN m)
                         (objectCount_ h + 2) (open_ h)))
    /\ free pageSize debug b s2 = Done tt s3
    /\ pages s3 !! b = None
    /\ bucket_ s3 = b.
Proof.
  intros pageSize b Hhw Hn Hm Hb Hbm Hb64 Hh Hbd Hfill Hcnt.
  subst pageSize.
  pose proof (CC_MEM_ALIGN_range n) as Hrn.
  pose proof (CC_MEM_ALIGN_range m) as Hrm.
  pose proof (allocate_fast_wrapping 65536 sizeofBucketHeader debug n h s)
    as E1.
  cbv zeta in E1. fold b in E1.
  rewrite !size_t_id in E1 by lia.
  specialize (E1 Hn ltac:(lia) Hh ltac:(lia)).
  rewrite Hfill in E1. change (uint16 65536) with 0 in E1.
  rewrite uint16_id in E1 by lia.
  set (h1 := mkHeader (preallocCount_ h) 0 (objectCount_ h + 1) (open_ h))
    in *.
  set (s1 := mkState _ _ _ _) in E1.
  assert (Hh1 : pages s1 !! b = Some (Header h1))
    by (apply lookup_insert_eq).
  pose proof (allocate_fast_wrapping 65536 sizeofBucketHeader debug m h1 s1)
    as E2.
  cbv zeta in E2.
  change (bucket_ s1) with b in E2.
  change (bytesDirty_ h1) with 0 in E2.
  change (objectCount_ h1) with (objectCount_ h + 1) in E2.
  change (preallocCount_ h1) with (preallocCount_ h) in E2.
  change (open_ h1) with (open_ h) in E2.
  rewrite Z.sub_0_r, Z.add_0_r, Z.add_0_l in E2.
  rewrite !size_t_id in E2 by lia.
  specialize (E2 Hm ltac:(lia) Hh1 ltac:(lia)).
  rewrite !uint16_id in E2 by lia.
  replace (objectCount_ h + 1 + 1) with (objectCount_ h + 2) in E2 by lia.
  set (s2 := mkState _ _ _ _) in E2.
  destruct (free_cases 65536 debug ltac:(lia) s2 b ltac:(lia) ltac:(lia))
    as (_ & E3 & _).
  specialize (E3 Hbm).
  exists s1, s2. eexists.
  split; [exact E1|]. split; [exact Hh1|]. split; [exact E2|].
  split; [apply lookup_insert_eq|]. split; [exact E3|].
  split; [apply lookup_delete_eq|reflexivity].
Qed.

(** * The further properties at concrete inputs *)

Lemma call_keeps_state_wf_witness :
  exists s',
    returns 4096 48 true (CallAllocate 8) (init 4096) s'
    /\ state_wf 4096 48 s'.
Proof.
  eexists. split; [exists 4144; vm_compute; reflexivity|].
  apply (call_keeps_state_wf 4096 48 true ltac:(zcalc) ltac:(zcalc)
           ltac:(zcalc) (CallAllocate 8) (init 4096) _
           (state_wf_init 4096 48 ltac:(zcalc) ltac:(zcalc))).
  exists 4144. vm_compute. reflexivity.
Defined.

Lemma free_underflow_wraps_witness :
  exists s',
    free 4096 true 4144
      (mkState {[ 4096 := Header (mkHeader 15 64 0 true) ]} 69632 4096 [])
    = Done tt s'
    /\ pages s' !! 4096 = Some (Header (mkHeader 15 64 65535 true)).
Proof.
  pose proof (free_underflow_wraps 4096 true ltac:(zcalc)
                (mkState {[ 4096 := Header (mkHeader 15 64 0 true) ]}
                   69632 4096 [])
                4144 (mkHeader 15 64 0 true)
                ltac:(zcalc) ltac:(zcalc) ltac:(zcalc) ltac:(zcalc)
                ltac:(zcalc)) as H.
  eexists. split; [exact H|]. vm_compute. reflexivity.
Defined.

Lemma zero_size_block_is_aliased_witness :
  exists s1 s2,
    allocate 4096 48 true 0
      (mkState {[ 4096 := Header (mkHeader 15 64 1 true) ]} 69632 4096 [])
    = Done 4160 s1
    /\ allocate 4096 48 true 8 s1 = Done 4160 s2.
Proof.
  destruct (zero_size_block_is_aliased 4096 48 true ltac:(zcalc) 0 8
              (mkHeader 15 64 1 true)
              (mkState {[ 4096 := Header (mkHeader 15 64 1 true) ]}
                 69632 4096 [])
              ltac:(zcalc) ltac:(zcalc) ltac:(zcalc) ltac:(zcalc)
              ltac:(zcalc) ltac:(zcalc) ltac:(zcalc) ltac:(zcalc)
              ltac:(zcalc))
    as (s1 & s2 & H1 & H2 & _).
  exists s1, s2. split; [exact H1|exact H2].
Defined.

Lemma zero_size_on_full_bucket_witness :
  exists s1 s2,
    allocate 4096 48 true 0
      (mkState {[ 4096 := Header (mkHeader 15 4096 1 true) ]} 69632 4096 [])
    = Done 8192 s1
    /\ free 4096 true 8192 s1 = Done tt s2.
Proof.
  destruct (zero_size_on_full_bucket 4096 48 true ltac:(zcalc) ltac:(zcalc)
              0 (mkHeader 15 4096 1 true)
              (mkState {[ 4096 := Header (mkHeader 15 4096 1 true) ]}
                 69632 4096 [])
              ltac:(zcalc) ltac:(zcalc) ltac:(zcalc) ltac:(zcalc)
              ltac:(zcalc) ltac:(zcalc) ltac:(zcalc) ltac:(zcalc))
    as (s1 & H1 & _ & _ & H2 & _).
  exists s1. eexists. split; [exact H1|exact H2].
Defined.

Lemma allocate_direct_roundtrip_witness :
  exists p s1 s2,
    allocate 4096 48 true 4090 (init 4096) = Done p s1
    /\ free 4096 true p s1 = Done tt s2
    /\ pages s2 = pages (init 4096).
Proof.
  destruct (allocate_direct_roundtrip 4096 48 true ltac:(zcalc) ltac:(zcalc)
              ltac:(zcalc) 4090 (init 4096)
              (state_wf_init 4096 48 ltac:(zcalc) ltac:(zcalc))
              ltac:(zcalc) ltac:(zcalc))
    as (p & s1 & s2 & H1 & H2 & H3 & _).
  exists p, s1, s2. split; [exact H1|]. split; [exact H2|exact H3].
Defined.


Lemma free_only_unmaps_witness :
  exists s',
    free 4096 true 4096 (mkState {[ 4096 := Raw ]} 8192 0 []) = Done tt s'
    /\ bucket_ s' = 0 /\ brk s' = 8192.
Proof.
  eexists. split; [vm_compute; reflexivity|].
  destruct (free_only_unmaps 4096 true 4096
              (mkState {[ 4096 := Raw ]} 8192 0 []) _
              ltac:(vm_compute; reflexivity))
    as (H1 & H2 & _).
  split; [exact H1|exact H2].
Defined.

Lemma calls_respect_lock_discipline_witness :
  exists s',
    returns 4096 48 true (CallAllocate 8)
      (mkState {[ 4096 := Header (mkHeader 15 64 1 true) ]} 69632 4096 []) s'
    /\ lock_state None
         (events_since
            (mkState {[ 4096 := Header (mkHeader 15 64 1 true) ]}
               69632 4096 []) s')
       = Some None.
Proof.
  eexists. split; [exists 4160; vm_compute; reflexivity|].
  apply (calls_respect_lock_discipline 4096 48 true (CallAllocate 8)).
  exists 4160. vm_compute. reflexivity.
Defined.

Lemma small_block_placement_witness :
  exists p s',
    allocate 4096 48 true 8 (init 4096) = Done p s'
    /\ exists h',
         pages s' !! bucket_ s' = Some (Header h')
         /\ p + CC_MEM_ALIGN 8 = bucket_ s' + bytesDirty_ h'.
Proof.
  do 2 eexists. split; [vm_compute; reflexivity|].
  destruct (small_block_placement 4096 48 true ltac:(zcalc) ltac:(zcalc)
              ltac:(zcalc) 8 (init 4096) _ _
              (state_wf_init 4096 48 ltac:(zcalc) ltac:(zcalc))
              ltac:(zcalc) ltac:(vm_compute; reflexivity))
    as (h' & H1 & _ & _ & H2 & _).
  exists h'. split; [exact H1|exact H2].
Defined.

Lemma consecutive_small_blocks_adjacent_witness :
  exists s1,
    allocate 4096 48 true 8 (init 4096) = Done 4144 s1
    /\ exists s2,
         allocate 4096 48 true 24 s1 = Done (4144 + CC_MEM_ALIGN 8) s2.
Proof.
  eexists. split; [vm_compute; reflexivity|].
  apply (consecutive_small_blocks_adjacent 4096 48 true ltac:(zcalc)
           ltac:(zcalc) ltac:(zcalc) 8 24 (init 4096) _ 4144
           (mkHeader 15 64 1 true)
           (state_wf_init 4096 48 ltac:(zcalc) ltac:(zcalc))
           ltac:(zcalc) ltac:(zcalc) ltac:(vm_compute; reflexivity)
           ltac:(vm_compute; reflexivity) ltac:(zcalc) ltac:(zcalc)).
Defined.

Lemma allocate_block_is_mapped_witness :
  exists p s',
    allocate 4096 48 true 5000 (init 4096) = Done p s'
    /\ mapped 4096 s' (p + 4999).
Proof.
  do 2 eexists. split; [vm_compute; reflexivity|].
  apply (allocate_block_is_mapped 4096 48 true ltac:(zcalc) ltac:(zcalc)
           ltac:(zcalc) 5000 (init 4096) _ _
           (state_wf_init 4096 48 ltac:(zcalc) ltac:(zcalc))
           ltac:(zcalc) ltac:(zcalc) ltac:(vm_compute; reflexivity)
           ltac:(zcalc) 4999 ltac:(zcalc)).
Defined.

Lemma allocate_unmaps_only_its_empty_bucket_witness :
  exists p1 s1 s2 p s',
    allocate 4096 48 true 4048 (init 4096) = Done p1 s1
    /\ free 4096 true p1 s1 = Done tt s2
    /\ allocate 4096 48 true 8 s2 = Done p s'
    /\ pages s' !! 4096 = None
    /\ 4096 = bucket_ s2
    /\ exists h,
         pages s2 !! 4096 = Some (Header h)
         /\ objectCount_ h = 0
         /\ 4096 < bytesDirty_ h + CC_MEM_ALIGN 8.
Proof.
  do 5 eexists.
  split; [vm_compute; reflexivity|].
  match goal with
  | |- free _ _ _ ?s1 = _ /\ _ =>
      assert (W1 : state_wf 4096 48 s1)
        by exact (proj1 (allocate_wf 4096 48 true ltac:(zcalc) ltac:(zcalc)
                           ltac:(zcalc) 4048 (init 4096) 4144 s1
                           (state_wf_init 4096 48 ltac:(zcalc) ltac:(zcalc))
                           ltac:(vm_compute; reflexivity)))
  end.
  split; [vm_compute; reflexivity|].
  match goal with
  | |- allocate _ _ _ _ ?s2 = _ /\ _ =>
      assert (W2 : state_wf 4096 48 s2)
        by exact (free_wf 4096 48 true 4144 _ tt s2 W1
                    ltac:(vm_compute; reflexivity))
  end.
  split; [vm_compute; reflexivity|]. split; [vm_compute; reflexivity|].
  match goal with
  | |- _ = bucket_ ?s2 /\ _ =>
      exact (allocate_unmaps_only_its_empty_bucket 4096 48 true ltac:(zcalc)
               ltac:(zcalc) ltac:(zcalc) 8 s2 _ _ 4096 W2
               ltac:(vm_compute; reflexivity)
               ltac:(eexists; vm_compute; reflexivity)
               ltac:(vm_compute; reflexivity))
  end.
Defined.

Lemma packed_in_one_page_witness :
  exists s',
    allocate_all 4096 48 true [8; 24; 100] (init 4096)
    = Done [4144; 4160; 4192] s'
    /\ bucket_ s' = 4096
    /\ pages s' !! 4096 = Some (Header (mkHeader 15 208 3 true)).
Proof.
  destruct (packed_in_one_page 4096 48 true ltac:(zcalc) ltac:(zcalc)
              ltac:(zcalc) 8 [24; 100] (init 4096)
              ltac:(zcalc) ltac:(zcalc) ltac:(zcalc) ltac:(zcalc)
              ltac:(zcalc))
    as (s' & H1 & H2 & H3 & _).
  exists s'. split; [exact H1|]. split; [exact H2|exact H3].
Defined.

Lemma huge_request_gets_empty_block_witness :
  CC_MEM_ALIGN (2 ^ 64 - 7) = 0
  /\ exists s',
       allocate 4096 48 true (2 ^ 64 - 7) (init 4096) = Done 4144 s'
       /\ pages s' !! 4096 = Some (Header (mkHeader 15 48 1 true)).
Proof.
  destruct (huge_request_gets_empty_block 4096 48 true ltac:(zcalc)
              ltac:(zcalc) ltac:(zcalc) (2 ^ 64 - 7) (init 4096)
              ltac:(zcalc) ltac:(zcalc) ltac:(zcalc) ltac:(zcalc))
    as (H0 & s' & H1 & _ & H2).
  split; [exact H0|]. exists s'. split; [exact H1|exact H2].
Defined.

Lemma large_request_page_count_truncated_witness :
  exists p s',
    allocate 4096 48 true (2 ^ 44) (init 4096) = Done p s'
    /\ p = 4100
    /\ pages s' !! 4096 = Some (Prefix 1)
    /\ brk s' = 8192
    /\ ~ mapped 4096 s' (p + 2 ^ 44 - 1).
Proof.
  do 2 eexists. split; [vm_compute; reflexivity|].
  destruct (large_request_page_count_truncated 4096 48 true ltac:(zcalc)
              ltac:(zcalc) ltac:(zcalc) ltac:(zcalc) (2 ^ 44) (init 4096)
              _ _ (state_wf_init 4096 48 ltac:(zcalc) ltac:(zcalc))
              ltac:(zcalc) ltac:(zcalc) ltac:(zcalc)
              ltac:(vm_compute; reflexivity))
    as (H1 & H2 & H3 & _ & H4).
  split; [exact H1|]. split; [exact H2|]. split; [exact H3|exact H4].
Defined.

Lemma bucket_life_cycle_witness :
  exists s',
    allocate 4096 48 true 8 (init 4096) = Done 4144 s'
    /\ forall a h, pages s' !! a = Some (Header h) ->
         headerWidth 48 <= bytesDirty_ h <= 4096
         /\ 0 <= objectCount_ h
         /\ ~ (objectCount_ h = 0 /\ open_ h = false).
Proof.
  eexists. split; [vm_compute; reflexivity|].
  match goal with
  | |- forall a h, pages ?s' !! a = _ -> _ =>
      assert (R : run 4096 48 true (init 4096) s')
        by (apply (run_call 4096 48 true (CallAllocate 8) _ (init 4096));
            [apply run_refl|exists 4144; vm_compute; reflexivity]);
      exact (proj1 (bucket_life_cycle 4096 48 true ltac:(zcalc) ltac:(zcalc)
                      ltac:(zcalc) (init 4096) s' (reach_init 4096 48 true)
                      R))
  end.
Defined.

Lemma bytesDirty_wraps_on_64k_pages_witness :
  exists s1 s2 s3,
    allocate 65536 48 true 65472
      (mkState {[ 65536 := Header (mkHeader 15 64 1 true) ]}
         1114112 65536 [])
    = Done 65600 s1
    /\ allocate 65536 48 true 8 s1 = Done 65536 s2
    /\ free 65536 true 65536 s2 = Done tt s3
    /\ pages s3 !! 65536 = None.
Proof.
  destruct (bytesDirty_wraps_on_64k_pages 48 true 65472 8
              (mkHeader 15 64 1 true)
              (mkState {[ 65536 := Header (mkHeader 15 64 1 true) ]}
                 1114112 65536 [])
              ltac:(zcalc) ltac:(zcalc) ltac:(zcalc) ltac:(zcalc)
              ltac:(zcalc) ltac:(zcalc) ltac:(zcalc) ltac:(zcalc)
              ltac:(zcalc) ltac:(zcalc))
    as (s1 & s2 & s3 & H1 & _ & H2 & _ & H3 & H4 & _).
  exists s1, s2, s3. split; [exact H1|]. split; [exact H2|].
  split; [exact H3|exact H4].
Defined.
